(** * WSDOT web styles: the scraping tools, embedded and verified

    A shallow embedding of [tools/ColorInfo.ts] and [tools/index.ts]:
    the classification of a colour column's free text into a [ColorInfo],
    its rendering as a CSS custom property, and the two table walkers
    ([getColorInfo], [enumerateScaleIncrements]).

    Conventions of the embedding.
    - A JavaScript string is a [string]: a sequence of code units, here
      the code units below 256 (the Latin-1 slice of UTF-16).
    - [undefined] / [null] are [None].
    - A JavaScript regular expression object is its pattern (a [regex])
      together with its mutable [lastIndex]; every pattern of the source
      carries the [g] flag, so [lastIndex] is live state and is threaded
      explicitly.
    - A generator is the list of events it produces when run to the end,
      yields and writes to the error stream interleaved in order. *)

From Stdlib Require Import String Ascii List Bool Arith NArith ZArith Lia.
From Stdlib Require Import DecimalString HexadecimalString HexadecimalPos.
Import ListNotations.
Local Open Scope list_scope.
Local Open Scope string_scope.
Local Open Scope nat_scope.

(** ** Code units and character classes *)

Module CharClass.

Definition code (c : ascii) : nat := nat_of_ascii c.

Definition between (lo hi : nat) (c : ascii) : bool :=
  (lo <=? code c) && (code c <=? hi).

(** [\d] *)
Definition digit (c : ascii) : bool := between 48 57 c.

(** [\s]: WhiteSpace and LineTerminator code units below 256:
    TAB, LF, VT, FF, CR, SP and NBSP. *)
Definition space (c : ascii) : bool :=
  between 9 13 c || (code c =? 32) || (code c =? 160).

(** [.] without the [s] flag: anything but a line terminator. *)
Definition dot (c : ascii) : bool :=
  negb ((code c =? 10) || (code c =? 13)).

(** [[0-9a-f]] under the [i] flag. *)
Definition hexdigit (c : ascii) : bool :=
  between 48 57 c || between 97 102 c || between 65 70 c.

(** A literal pattern character, case-sensitive. *)
Definition lit (p : ascii) (c : ascii) : bool := Ascii.eqb p c.

Definition upper_ascii (c : ascii) : ascii :=
  if between 97 122 c then ascii_of_nat (code c - 32) else c.

(** A literal pattern character under the [i] flag. Without the [u]
    flag, canonicalisation never maps a code unit of 128 or more to
    one below 128, so an ASCII pattern letter only meets its two ASCII
    cases. *)
Definition lit_i (p : ascii) (c : ascii) : bool :=
  if code c <? 128 then Ascii.eqb (upper_ascii p) (upper_ascii c)
  else Ascii.eqb p c.

End CharClass.

(** ** Regular expressions: the fragment the source uses *)

Inductive regex : Type :=
| Char (p : ascii -> bool)          (* one code unit of a class *)
| Cat (r1 r2 : regex)               (* r1 r2 *)
| Opt (r : regex)                   (* r?  greedy *)
| Plus (p : ascii -> bool).         (* [class]+  greedy *)

(** Greedy iteration of a class, with backtracking into continuation
    [k]: take as many code units as possible, give back one at a time. *)
Fixpoint star_k {A} (p : ascii -> bool) (s : string)
         (k : string -> option A) : option A :=
  match s with
  | String c s' =>
      if p c then
        match star_k p s' k with
        | Some x => Some x
        | None => k s
        end
      else k s
  | EmptyString => k s
  end.

(** The backtracking matcher: [match_k r s k] matches [r] at the start
    of [s] and passes what is left of [s] to [k]; alternatives are tried
    in the order of the ECMAScript semantics. *)
Fixpoint match_k {A} (r : regex) (s : string)
         (k : string -> option A) : option A :=
  match r with
  | Char p =>
      match s with
      | String c s' => if p c then k s' else None
      | EmptyString => None
      end
  | Cat r1 r2 => match_k r1 s (fun s' => match_k r2 s' k)
  | Opt r1 =>
      match match_k r1 s k with
      | Some x => Some x
      | None => k s
      end
  | Plus p =>
      match s with
      | String c s' => if p c then star_k p s' k else None
      | EmptyString => None
      end
  end.

(** Length of the match of [r] anchored at the start of [s]. *)
Definition match_at (r : regex) (s : string) : option nat :=
  match match_k r s (fun rest => Some rest) with
  | Some rest => Some (String.length s - String.length rest)
  | None => None
  end.

(** Drop the first [n] code units. *)
Fixpoint drop (n : nat) (s : string) : string :=
  match n, s with
  | O, _ => s
  | S n', String _ s' => drop n' s'
  | S _, EmptyString => EmptyString
  end.

(** Leftmost match at a start position of [pos] or more, [s] being the
    input from [pos] on. The position after the last code unit is tried
    as well. *)
Fixpoint find_from (r : regex) (s : string) (pos : nat)
  : option (nat * nat) :=
  match match_at r s with
  | Some n => Some (pos, n)
  | None =>
      match s with
      | String _ s' => find_from r s' (S pos)
      | EmptyString => None
      end
  end.

(** *** The RegExp object

    [RegExp_exec r lastIndex str] is RegExpBuiltinExec for a global,
    non-sticky expression: the result is the match (index and length),
    if any, and the new value of [lastIndex]. *)
Definition RegExp_exec (r : regex) (lastIndex : nat) (str : string)
  : option (nat * nat) * nat :=
  if String.length str <? lastIndex then (None, 0)
  else
    match find_from r (drop lastIndex str) lastIndex with
    | Some (i, n) => (Some (i, n), i + n)
    | None => (None, 0)
    end.

(** [re.test(str)] *)
Definition RegExp_test (r : regex) (lastIndex : nat) (str : string)
  : bool * nat :=
  match RegExp_exec r lastIndex str with
  | (Some _, li) => (true, li)
  | (None, li) => (false, li)
  end.

(** The loop of [RegExp.prototype[Symbol.match]] for a global
    expression: call exec until it fails, collecting the matched
    substrings; an empty match advances [lastIndex] by one. *)
Fixpoint match_loop (fuel : nat) (r : regex) (lastIndex : nat)
         (str : string) : list string * nat :=
  match fuel with
  | O => ([], lastIndex)
  | S fuel' =>
      match RegExp_exec r lastIndex str with
      | (None, li) => ([], li)
      | (Some (i, n), li) =>
          let li' := if n =? 0 then S li else li in
          let (A, li'') := match_loop fuel' r li' str in
          (substring i n str :: A, li'')
      end
  end.

(** [str.match(re)] for a global [re]: [lastIndex] is reset to 0 first;
    the result is [null] when there is no match, the non-empty array of
    all the matched substrings otherwise (its element 0 and the rest).
    Every call of exec that succeeds moves [lastIndex] forward, so
    [length str + 2] rounds exhaust the loop (lemma
    [String_match_lastIndex]). *)
Definition String_match (str : string) (r : regex) (lastIndex : nat)
  : option (string * list string) * nat :=
  let (A, li) := match_loop (String.length str + 2) r 0 str in
  (match A with [] => None | m0 :: rest => Some (m0, rest) end, li).

(** ** The built-ins the tools call *)

Module JS.

(** A JavaScript number, as far as the tools meet one: NaN or an
    integer (parseInt results; exact below 2^53). *)
Inductive Number : Type :=
| NaN
| Int (z : Z).

(** [!x] for a string that may be undefined. *)
Definition falsy (x : option string) : bool :=
  match x with
  | None => true
  | Some EmptyString => true
  | Some _ => false
  end.

(** [String.prototype.trimEnd] *)
Fixpoint trimEnd (s : string) : string :=
  match s with
  | EmptyString => EmptyString
  | String c s' =>
      match trimEnd s' with
      | EmptyString =>
          if CharClass.space c then EmptyString
          else String c EmptyString
      | t => String c t
      end
  end.

Fixpoint trimStart (s : string) : string :=
  match s with
  | String c s' => if CharClass.space c then trimStart s' else s
  | EmptyString => EmptyString
  end.

(** [String.prototype.toLowerCase] on code units below 256. *)
Definition lower (c : ascii) : ascii :=
  let n := CharClass.code c in
  if CharClass.between 65 90 c then ascii_of_nat (n + 32)
  else if CharClass.between 192 222 c && negb (n =? 215)
       then ascii_of_nat (n + 32)
  else c.

Fixpoint toLowerCase (s : string) : string :=
  match s with
  | EmptyString => EmptyString
  | String c s' => String (lower c) (toLowerCase s')
  end.

(** [s.replace(/[class]/g, by)] for a one-code-unit class. *)
Fixpoint replace_class (p : ascii -> bool) (by_ : string) (s : string)
  : string :=
  match s with
  | EmptyString => EmptyString
  | String c s' =>
      if p c then by_ ++ replace_class p by_ s'
      else String c (replace_class p by_ s')
  end.

(** Value of a code unit as a digit, for radices up to 36. *)
Definition digit_value (c : ascii) : option nat :=
  let n := CharClass.code c in
  if CharClass.between 48 57 c then Some (n - 48)
  else if CharClass.between 97 122 c then Some (n - 87)
  else if CharClass.between 65 90 c then Some (n - 55)
  else None.

(** The longest prefix of radix-[R] digits, folded into its value;
    [None] when that prefix is empty. *)
Fixpoint digits_value (R : nat) (acc : option Z) (s : string)
  : option Z :=
  match s with
  | EmptyString => acc
  | String c s' =>
      match digit_value c with
      | Some d =>
          if d <? R then
            digits_value R
              (Some (Z.of_nat R * match acc with Some a => a | None => 0 end
                     + Z.of_nat d)%Z) s'
          else acc
      | None => acc
      end
  end.

Definition strip_0x (s : string) : option string :=
  match s with
  | String z (String x rest) =>
      if Ascii.eqb z "0" && (Ascii.eqb x "x" || Ascii.eqb x "X")
      then Some rest else None
  | _ => None
  end.

(** [Number.parseInt(s, radix)]; [radix = None] is an absent radix. *)
Definition parseInt (s : string) (radix : option nat) : Number :=
  let s1 := trimStart s in
  let (sign, s2) :=
    match s1 with
    | String c t =>
        if Ascii.eqb c "-" then ((-1)%Z, t)
        else if Ascii.eqb c "+" then (1%Z, t)
        else (1%Z, s1)
    | EmptyString => (1%Z, s1)
    end in
  let R0 := match radix with Some r => r | None => 0 end in
  if negb (R0 =? 0) && ((R0 <? 2) || (36 <? R0)) then NaN
  else
    let stripPrefix := (R0 =? 0) || (R0 =? 16) in
    let (R, s3) :=
      match (if stripPrefix then strip_0x s2 else None) with
      | Some t => (16, t)
      | None => (if R0 =? 0 then 10 else R0, s2)
      end in
    match digits_value R None s3 with
    | Some v => Int (sign * v)
    | None => NaN
    end.

(** [Number.prototype.toString(16)] and [toString()] on integers. *)
Definition toString16 (x : Number) : string :=
  match x with
  | NaN => "NaN"
  | Int z => HexadecimalString.NilZero.string_of_int (Z.to_hex_int z)
  end.

Definition toString10 (x : Number) : string :=
  match x with
  | NaN => "NaN"
  | Int z => DecimalString.NilZero.string_of_int (Z.to_int z)
  end.

(** [`${n}`] for an index or a length. *)
Definition nat_toString (n : nat) : string :=
  DecimalString.NilZero.string_of_uint (Nat.to_uint n).

(** [Array.prototype.join] *)
Fixpoint join (sep : string) (xs : list string) : string :=
  match xs with
  | [] => EmptyString
  | [x] => x
  | x :: rest => x ++ sep ++ join sep rest
  end.

(** [s.split(/,\s/g)]: cut at every comma that a white space code
    unit follows. *)
Fixpoint split_comma_space (s : string) : list string :=
  match s with
  | EmptyString => [EmptyString]
  | String c s' =>
      match s' with
      | String c' s'' =>
          if Ascii.eqb c "," && CharClass.space c'
          then EmptyString :: split_comma_space s''
          else
            match split_comma_space s' with
            | x :: rest => String c x :: rest
            | [] => [String c EmptyString]
            end
      | EmptyString => [String c EmptyString]
      end
  end.

(** *** JSON.stringify, on the values the tools pass to it *)

Definition dquote : ascii := ascii_of_nat 34.
Definition backslash : ascii := ascii_of_nat 92.
Definition LF : string := String (ascii_of_nat 10) EmptyString.
Definition TAB : string := String (ascii_of_nat 9) EmptyString.

Definition hex_digit_of (n : nat) : ascii :=
  if n <? 10 then ascii_of_nat (48 + n) else ascii_of_nat (87 + n).

(** QuoteJSONString, one code unit. *)
Definition quote_unit (c : ascii) : string :=
  let n := CharClass.code c in
  if n =? 8 then String backslash "b"
  else if n =? 9 then String backslash "t"
  else if n =? 10 then String backslash "n"
  else if n =? 12 then String backslash "f"
  else if n =? 13 then String backslash "r"
  else if n =? 34 then String backslash (String dquote EmptyString)
  else if n =? 92 then String backslash (String backslash EmptyString)
  else if n <? 32 then
    String backslash
      ("u00" ++ String (hex_digit_of (n / 16))
                  (String (hex_digit_of (n mod 16)) EmptyString))
  else String c EmptyString.

Fixpoint quote_units (s : string) : string :=
  match s with
  | EmptyString => EmptyString
  | String c s' => quote_unit c ++ quote_units s'
  end.

Definition JSON_quote (s : string) : string :=
  String dquote (quote_units s ++ String dquote EmptyString).

(** An array element: [undefined] is written [null]. *)
Definition JSON_element (x : option string) : string :=
  match x with
  | Some s => JSON_quote s
  | None => "null"
  end.

(** [JSON.stringify(cells)] for an array of strings. *)
Definition JSON_stringify_array (xs : list string) : string :=
  "[" ++ join "," (map JSON_quote xs) ++ "]".

(** [JSON.stringify({ name, values }, undefined, "\t")]: a property
    whose value is [undefined] is left out. *)
Definition JSON_stringify_name_values
           (name : option string) (values : list (option string))
  : string :=
  let values_json :=
    match values with
    | [] => "[]"
    | _ =>
        "[" ++ LF ++ TAB ++ TAB
            ++ join ("," ++ LF ++ TAB ++ TAB) (map JSON_element values)
            ++ LF ++ TAB ++ "]"
    end in
  let values_prop := JSON_quote "values" ++ ": " ++ values_json in
  let props :=
    match name with
    | Some n => [JSON_quote "name" ++ ": " ++ JSON_quote n; values_prop]
    | None => [values_prop]
    end in
  "{" ++ LF ++ TAB ++ join ("," ++ LF ++ TAB) props ++ LF ++ "}".

End JS.

(** ** ColorInfo.ts *)

(** The four module-level patterns. *)

(** [/(\d+)\s+(\d+)%/gi] *)
Definition pmsRe : regex :=
  Cat (Plus CharClass.digit)
      (Cat (Plus CharClass.space)
           (Cat (Plus CharClass.digit) (Char (CharClass.lit_i "%")))).

(** [/(\d+),\s(\d+),\s(\d+)/g] *)
Definition rgbRe : regex :=
  Cat (Plus CharClass.digit)
      (Cat (Char (CharClass.lit ","))
           (Cat (Char CharClass.space)
                (Cat (Plus CharClass.digit)
                     (Cat (Char (CharClass.lit ","))
                          (Cat (Char CharClass.space)
                               (Plus CharClass.digit)))))).

(** [/[0-9a-f]{6}/gi] *)
Definition hexRe : regex :=
  Cat (Char CharClass.hexdigit)
      (Cat (Char CharClass.hexdigit)
           (Cat (Char CharClass.hexdigit)
                (Cat (Char CharClass.hexdigit)
                     (Cat (Char CharClass.hexdigit)
                          (Char CharClass.hexdigit))))).

(** [/Same as.+/gi] *)
Definition sameAsRe : regex :=
  Cat (Char (CharClass.lit_i "S"))
      (Cat (Char (CharClass.lit_i "a"))
           (Cat (Char (CharClass.lit_i "m"))
                (Cat (Char (CharClass.lit_i "e"))
                     (Cat (Char (CharClass.lit_i " "))
                          (Cat (Char (CharClass.lit_i "a"))
                               (Cat (Char (CharClass.lit_i "s"))
                                    (Plus CharClass.dot))))))).

(** The mutable state of the module: [lastIndex] of each of the four
    expression objects, which every [ColorInfo] constructed shares. *)
Record Regs : Type := mkRegs {
  pmsRe_lastIndex : nat;
  rgbRe_lastIndex : nat;
  hexRe_lastIndex : nat;
  sameAsRe_lastIndex : nat
}.

Definition State (A : Type) : Type := Regs -> A * Regs.

Definition ret {A} (a : A) : State A := fun st => (a, st).

Definition bind {A B} (m : State A) (f : A -> State B) : State B :=
  fun st => let (a, st') := m st in f a st'.

Notation "x <- m ;; k" := (bind m (fun x => k))
  (at level 61, m at next level, right associativity).

(** [v.match(pmsRe)] and its three siblings, each on its own object. *)
Definition match_pmsRe (v : string) : State (option (string * list string)) :=
  fun st =>
    let (m, li) := String_match v pmsRe (pmsRe_lastIndex st) in
    (m, mkRegs li (rgbRe_lastIndex st) (hexRe_lastIndex st)
               (sameAsRe_lastIndex st)).

Definition match_rgbRe (v : string) : State (option (string * list string)) :=
  fun st =>
    let (m, li) := String_match v rgbRe (rgbRe_lastIndex st) in
    (m, mkRegs (pmsRe_lastIndex st) li (hexRe_lastIndex st)
               (sameAsRe_lastIndex st)).

Definition match_hexRe (v : string) : State (option (string * list string)) :=
  fun st =>
    let (m, li) := String_match v hexRe (hexRe_lastIndex st) in
    (m, mkRegs (pmsRe_lastIndex st) (rgbRe_lastIndex st) li
               (sameAsRe_lastIndex st)).

Definition match_sameAsRe (v : string)
  : State (option (string * list string)) :=
  fun st =>
    let (m, li) := String_match v sameAsRe (sameAsRe_lastIndex st) in
    (m, mkRegs (pmsRe_lastIndex st) (rgbRe_lastIndex st)
               (hexRe_lastIndex st) li).

Definition Rgb : Type := list JS.Number.

Record ColorInfo : Type := mkColorInfo {
  name : string;
  pms : option string;
  rgb : option Rgb;
  hex : option JS.Number;
  sameAs : option string
}.

Definition set_pms (this : ColorInfo) (x : string) : ColorInfo :=
  mkColorInfo (name this) (Some x) (rgb this) (hex this) (sameAs this).
Definition set_rgb (this : ColorInfo) (x : Rgb) : ColorInfo :=
  mkColorInfo (name this) (pms this) (Some x) (hex this) (sameAs this).
Definition set_hex (this : ColorInfo) (x : JS.Number) : ColorInfo :=
  mkColorInfo (name this) (pms this) (rgb this) (Some x) (sameAs this).
Definition set_sameAs (this : ColorInfo) (x : string) : ColorInfo :=
  mkColorInfo (name this) (pms this) (rgb this) (hex this) (Some x).

(** What the tools throw. *)
Inductive Error : Type :=
| InvalidColorParametersError (message : string)
| TypeError (message : string) (cause : option ColorInfo)
| Thrown (what : string).          (* any other thrown value *)

Inductive Completion (A : Type) : Type :=
| Normal (a : A)
| Throw (e : Error).
Arguments Normal {A} a.
Arguments Throw {A} e.

(** InvalidColorParametersError.ts, the constructor. *)
Definition new_InvalidColorParametersError
           (message : option string)
           (name : option string) (values : list (option string)) : Error :=
  InvalidColorParametersError
    match message with
    | Some m => m
    | None =>
        "Invalid color parameters were provided: "
          ++ JS.JSON_stringify_name_values name values
    end.

(** [get isValid] *)
Definition isValid (this : ColorInfo) : bool :=
  match rgb this, hex this with
  | None, None => false
  | _, _ => true
  end.

(** The body of [for (const v of values)]. *)
Definition visit (this : ColorInfo) (v : option string) : State ColorInfo :=
  match v with
  | None => ret this
  | Some v =>
      m <- match_pmsRe v ;;
      match m with
      | Some (m0, _) => ret (set_pms this m0)
      | None =>
          m <- match_rgbRe v ;;
          match m with
          | Some (m0, _) =>
              ret (set_rgb this
                     (map (fun v => JS.parseInt v None)
                          (JS.split_comma_space m0)))
          | None =>
              m <- match_hexRe v ;;
              match m with
              | Some (m0, _) => ret (set_hex this (JS.parseInt m0 (Some 16)))
              | None =>
                  m <- match_sameAsRe v ;;
                  match m with
                  | Some (m0, _) => ret (set_sameAs this m0)
                  | None => ret this
                  end
              end
          end
      end
  end.

Fixpoint for_of (this : ColorInfo) (values : list (option string))
  : State ColorInfo :=
  match values with
  | [] => ret this
  | v :: rest => this' <- visit this v ;; for_of this' rest
  end.

Definition either_message : string :=
  "Either an RGB or HEX color value must be provided. ".

(** [new ColorInfo(name, ...values)] *)
Definition new_ColorInfo (name : option string) (values : list (option string))
  : State (Completion ColorInfo) :=
  match name with
  | None | Some EmptyString =>
      ret (Throw (new_InvalidColorParametersError None name values))
  | Some n =>
      this <- for_of (mkColorInfo n None None None None) values ;;
      if negb (isValid this) then
        ret (Throw (new_InvalidColorParametersError
                      (Some (either_message
                               ++ JS.JSON_stringify_name_values name values))
                      name values))
      else ret (Normal this)
  end.

(** [get cssName] *)
Definition cssName (this : ColorInfo) : string :=
  JS.toLowerCase
    ("--" ++ JS.replace_class (CharClass.lit "%") "-percent"
                (JS.replace_class CharClass.space "-" (name this))).

(** What [console.error] is handed after its text. *)
Inductive Logged : Type :=
| LoggedColor (c : ColorInfo)
| LoggedError (e : Error).

(** What a generator, or a method that logs, lets out. *)
Inductive Event (A : Type) : Type :=
| Yield (a : A)
| ConsoleError (text : string) (arg : Logged)
| StderrWrite (text : string).
Arguments Yield {A} a.
Arguments ConsoleError {A} text arg.
Arguments StderrWrite {A} text.

(** The end of [toString]: log, then throw. *)
Definition toString_throw (this : ColorInfo) (format : string)
  : list (Event ColorInfo) * Completion string :=
  ([ConsoleError "Error converting color to string" (LoggedColor this)],
   Throw (TypeError ("format must be either " ++ JS.JSON_quote "hex"
                       ++ " or " ++ JS.JSON_quote "rgb"
                       ++ ". Instead got " ++ format)
                    (Some this))).

Definition is_null {A} (x : option A) : bool :=
  match x with None => true | Some _ => false end.

(** [toString(format = "hex")]; [format = None] is an absent argument.
    The result is what was logged and how the call completed. *)
Definition toString (this : ColorInfo) (format : option string)
  : list (Event ColorInfo) * Completion string :=
  let format := match format with Some f => f | None => "hex" end in
  let rgb_part :=
    match rgb this with
    | Some c =>
        if String.eqb format "rgb"
           || (String.eqb format "hex" && is_null (hex this))
        then ([], Normal (cssName this ++ ": rgb("
                            ++ JS.join "," (map JS.toString10 c) ++ ");"))
        else toString_throw this format
    | None => toString_throw this format
    end in
  match hex this with
  | Some h =>
      if String.eqb format "hex"
         || (String.eqb format "rgb" && is_null (rgb this))
      then ([], Normal (cssName this ++ ": #" ++ JS.toString16 h ++ ";"))
      else rgb_part
  | None => rgb_part
  end.

(** ** index.ts *)

(** *** The document, as far as the tools query it

    A table is its rows in document order and a row is its child
    elements; an element has a tag and a text content, which the type
    declarations allow to be [null]. *)

Inductive TagName : Type := td | th.

Record Element : Type := mkElement {
  tagName : TagName;
  textContent : option string
}.

Definition HTMLTableRowElement : Type := list Element.
Definition HTMLTableElement : Type := list HTMLTableRowElement.

Definition is_td (e : Element) : bool :=
  match tagName e with td => true | th => false end.

(** [row.querySelectorAll("td")] *)
Definition querySelectorAll_td (row : HTMLTableRowElement) : list Element :=
  filter is_td row.

(** [table.querySelectorAll("tr")] *)
Definition querySelectorAll_tr (table : HTMLTableElement)
  : list HTMLTableRowElement := table.

(** [table.querySelectorAll(`td:nth-child(${i})`)]: of every row, the
    child at position [i], counted from 1, when it is a [td]. *)
Definition querySelectorAll_td_nth_child (table : HTMLTableElement) (i : nat)
  : list Element :=
  match i with
  | O => []
  | S j =>
      flat_map (fun row =>
                  match nth_error row j with
                  | Some e => if is_td e then [e] else []
                  | None => []
                  end) table
  end.

(** [[...xs.entries()]] *)
Definition entries {A} (xs : list A) : list (nat * A) :=
  combine (seq 0 (List.length xs)) xs.

(** The [filter] and [map] of [getColorInfoColumn]: drop entry 1 and
    the cells without text, trim the others at the end. *)
Definition textContents_of (cells : list Element) : list string :=
  flat_map (fun '(i, cell) =>
              match textContent cell with
              | Some t => if negb (i =? 1) then [JS.trimEnd t] else []
              | None => []
              end) (entries cells).

Definition getColorInfoColumn (table : HTMLTableElement) (i : nat)
  : State (Completion (option ColorInfo)) :=
  let cells := querySelectorAll_td_nth_child table i in
  match cells with
  | [] => ret (Normal None)
  | _ =>
      let textContents := textContents_of cells in
      r <- new_ColorInfo (hd_error textContents)
                         (map Some (tl textContents)) ;;
      match r with
      | Normal c => ret (Normal (Some c))
      | Throw e => ret (Throw e)
      end
  end.

(** A generator run to its end: the events in order, and the error it
    threw, if it did. *)
Definition Run (A : Type) : Type := list (Event A) * option Error.

Section ColorGenerator.

(** The call in the [try] block, for column position [i]. *)
Variable column : nat -> State (Completion (option ColorInfo)).

(** [for (let i = 1; i <= 3; i++) { try ... catch ... }], over the
    positions still to visit. *)
Fixpoint for_columns (positions : list nat) : State (Run ColorInfo) :=
  match positions with
  | [] => ret ([], None)
  | i :: rest =>
      r <- column i ;;
      match r with
      | Normal (Some colorInfo) =>
          run <- for_columns rest ;;
          ret (Yield colorInfo :: fst run, snd run)
      | Normal None => for_columns rest
      | Throw (InvalidColorParametersError message) =>
          run <- for_columns rest ;;
          ret (ConsoleError (message ++ JS.LF)
                            (LoggedError (InvalidColorParametersError message))
                 :: fst run, snd run)
      | Throw error => ret ([], Some error)
      end
  end.

End ColorGenerator.

Definition getColorInfo (table : HTMLTableElement) : State (Run ColorInfo) :=
  for_columns (getColorInfoColumn table) [1; 2; 3].

(** The values a run yielded. *)
Fixpoint yields {A} (events : list (Event A)) : list A :=
  match events with
  | [] => []
  | Yield a :: rest => a :: yields rest
  | _ :: rest => yields rest
  end.

(** [[...tables].flatMap((t) => [...getColorInfo(t)])]: the log of all
    the runs, and the array unless a run threw. *)
Fixpoint getColorInfosFromTable (tables : list HTMLTableElement)
  : State (list (Event ColorInfo) * Completion (list ColorInfo)) :=
  match tables with
  | [] => ret ([], Normal [])
  | t :: rest =>
      run <- getColorInfo t ;;
      match snd run with
      | Some e => ret (fst run, Throw e)
      | None =>
          more <- getColorInfosFromTable rest ;;
          ret ((fst run ++ fst more)%list,
               match snd more with
               | Normal cs => Normal (yields (fst run) ++ cs)%list
               | Throw e => Throw e
               end)
      end
  end.

(** *** Scale increments *)

Record Scale : Type := mkScale {
  base : string;
  incrementName : string;
  pixelSize : string;
  remSize : string
}.

(** [/Base-?\d+/g], and its [source]. *)
Definition incrementNameRe : regex :=
  Cat (Char (CharClass.lit "B"))
      (Cat (Char (CharClass.lit "a"))
           (Cat (Char (CharClass.lit "s"))
                (Cat (Char (CharClass.lit "e"))
                     (Cat (Opt (Char (CharClass.lit "-")))
                          (Plus CharClass.digit))))).

Definition incrementNameRe_source : string := "Base-?\d+".

(** [.map((cell) => cell.textContent || null).filter((text) => !!text)] *)
Definition or_null (text : option string) : option string :=
  if JS.falsy text then None else text.

Fixpoint truthy (texts : list (option string)) : list string :=
  match texts with
  | [] => []
  | Some (String c s) :: rest => String c s :: truthy rest
  | _ :: rest => truthy rest
  end.

Definition cells_of (row : HTMLTableRowElement) : list string :=
  truthy (map (fun cell => or_null (textContent cell))
              (querySelectorAll_td row)).

Definition too_few_message (i : nat) (cells : list string) : string :=
  JS.LF ++ "Row " ++ JS.nat_toString i
        ++ " should have 4 elements but only has "
        ++ JS.nat_toString (List.length cells) ++ "." ++ JS.LF
        ++ JS.JSON_stringify_array cells ++ JS.LF.

Definition empty_element_message (i : nat) (cells : list string) : string :=
  JS.LF ++ "Row " ++ JS.nat_toString i ++ " contains an empty element."
        ++ JS.LF ++ JS.JSON_stringify_array cells ++ JS.LF.

Definition invalid_name_message (i : nat) (incrementName : string) : string :=
  "Row " ++ JS.nat_toString i ++ " has an invalid increment name: "
         ++ incrementName ++ ". Expected to match "
         ++ incrementNameRe_source ++ JS.LF.

(** The body of [for (const [i, row] of rows.entries())], with
    [lastIndex] of [incrementNameRe] as it stands: what the row lets
    out, and [lastIndex] afterwards. The test [cells.length < 4] and the
    destructuring of the first four cells are one pattern match. *)
Definition row_body (i : nat) (row : HTMLTableRowElement) (lastIndex : nat)
  : list (Event Scale) * nat :=
  if i =? 0 then ([], lastIndex)
  else
    let cells := cells_of row in
    match cells with
    | base :: incrementName :: pixelSize :: remSize :: _ =>
        if existsb (fun text => JS.falsy (Some text)) cells then
          ([StderrWrite (empty_element_message i cells)], lastIndex)
        else
          let (ok, li) :=
            RegExp_test incrementNameRe lastIndex incrementName in
          if ok then
            ([Yield (mkScale base incrementName pixelSize remSize)], li)
          else
            ([StderrWrite (invalid_name_message i incrementName)], li)
    | _ => ([StderrWrite (too_few_message i cells)], lastIndex)
    end.

(** The loop, from row [i] on. *)
Fixpoint for_rows (i : nat) (rows : list HTMLTableRowElement)
         (lastIndex : nat) : list (Event Scale) * nat :=
  match rows with
  | [] => ([], lastIndex)
  | row :: rest =>
      let (events, li) := row_body i row lastIndex in
      let (more, li') := for_rows (S i) rest li in
      ((events ++ more)%list, li')
  end.

(** [enumerateScaleIncrements(table)] run to its end. The expression
    object is made by the call, so the loop starts with [lastIndex = 0];
    the second component is where the call leaves its object. *)
Definition enumerateScaleIncrements_run (table : HTMLTableElement)
  : list (Event Scale) * nat :=
  for_rows 0 (querySelectorAll_tr table) 0.

Definition enumerateScaleIncrements (table : HTMLTableElement)
  : list (Event Scale) :=
  fst (enumerateScaleIncrements_run table).

(** * Vocabulary of the statements *)

(** Whether [r] matches somewhere in [s], and the leftmost match. *)
Definition matches (r : regex) (s : string) : bool :=
  match fst (RegExp_exec r 0 s) with
  | Some _ => true
  | None => false
  end.

Definition first_match (r : regex) (s : string) : string :=
  match fst (RegExp_exec r 0 s) with
  | Some (i, n) => substring i n s
  | None => EmptyString
  end.


(** The four fields a value can populate, and the decision list of the
    classification as the specification words it: the patterns in the
    order Pantone, RGB, hex, alias, the first that matches wins. *)
Inductive Field : Type := Pantone | RGB | Hexadecimal | Alias.

Definition Field_eqb (f g : Field) : bool :=
  match f, g with
  | Pantone, Pantone | RGB, RGB | Hexadecimal, Hexadecimal | Alias, Alias =>
      true
  | _, _ => false
  end.

Definition classify (v : string) : option Field :=
  if matches pmsRe v then Some Pantone
  else if matches rgbRe v then Some RGB
  else if matches hexRe v then Some Hexadecimal
  else if matches sameAsRe v then Some Alias
  else None.

(** The one field that a value classified as [f] populates. *)
Definition populate (this : ColorInfo) (f : Field) (v : string) : ColorInfo :=
  match f with
  | Pantone => set_pms this (first_match pmsRe v)
  | RGB =>
      set_rgb this (map (fun x => JS.parseInt x None)
                        (JS.split_comma_space (first_match rgbRe v)))
  | Hexadecimal => set_hex this (JS.parseInt (first_match hexRe v) (Some 16))
  | Alias => set_sameAs this (first_match sameAsRe v)
  end.

(** How many of the four patterns get tested on a value. *)
Definition tests_run (f : option Field) : nat :=
  match f with
  | Some Pantone => 1
  | Some RGB => 2
  | Some Hexadecimal => 3
  | Some Alias | None => 4
  end.

(** The expression objects after the first [n] patterns were tested: a
    tested object has [lastIndex] back at 0, an untested one is as it
    was. *)
Definition tested (n : nat) (st : Regs) : Regs :=
  mkRegs (if 1 <=? n then 0 else pmsRe_lastIndex st)
         (if 2 <=? n then 0 else rgbRe_lastIndex st)
         (if 3 <=? n then 0 else hexRe_lastIndex st)
         (if 4 <=? n then 0 else sameAsRe_lastIndex st).

(** Some value of the list is classified as [f]. *)
Definition found (f : Field) (values : list (option string)) : bool :=
  existsb (fun v =>
             match v with
             | Some s =>
                 match classify s with
                 | Some g => Field_eqb f g
                 | None => false
                 end
             | None => false
             end) values.

(** The record before the first value is visited. *)
Definition blank (n : string) : ColorInfo := mkColorInfo n None None None None.

(** A call completed by throwing. *)
Definition throws {A B} (r : list (Event B) * Completion A) : Prop :=
  exists e, snd r = Throw e.

(** Rendering as the specification words its failures: a request whose
    backing field is absent fails, and so does an unknown format. *)
Definition render_fails_as_stated (this : ColorInfo) (format : string)
  : Prop :=
  (format = "hex" -> hex this = None -> throws (toString this (Some format)))
  /\ (format = "rgb" -> rgb this = None ->
      throws (toString this (Some format)))
  /\ (format <> "hex" -> format <> "rgb" ->
      throws (toString this (Some format))).


(** Six hexadecimal code units at the start of [s]. *)
Definition hex_run_at (s : string) : bool :=
  match s with
  | String c1 (String c2 (String c3 (String c4 (String c5 (String c6 _))))) =>
      CharClass.hexdigit c1 && CharClass.hexdigit c2 && CharClass.hexdigit c3
      && CharClass.hexdigit c4 && CharClass.hexdigit c5 && CharClass.hexdigit c6
  | _ => false
  end.

(** [s] consists of exactly six hexadecimal code units. *)
Definition six_hex_digits (s : string) : bool :=
  (String.length s =? 6) && hex_run_at s.

(** The number that a string of hexadecimal digits denotes. *)
Fixpoint hex_value_from (acc : Z) (s : string) : Z :=
  match s with
  | EmptyString => acc
  | String c s' =>
      hex_value_from
        (16 * acc
         + Z.of_nat match JS.digit_value c with Some d => d | None => 0 end)%Z
        s'
  end.

Definition hex_value (s : string) : Z := hex_value_from 0 s.

(** No code unit of [s] is white space. *)
Fixpoint no_space (s : string) : bool :=
  match s with
  | EmptyString => true
  | String c s' => negb (CharClass.space c) && no_space s'
  end.

(** The leftmost run of six hexadecimal code units starts at [i]. *)
Definition leftmost_hex_run (s : string) (i : nat) : Prop :=
  hex_run_at (drop i s) = true
  /\ forall j, j < i -> hex_run_at (drop j s) = false.

(** Visiting the value [s] sets [hex] to [h], whatever the record. *)
Definition sets_hex (s : string) (h : JS.Number) : Prop :=
  forall this st, fst (visit this (Some s) st) = set_hex this h.

(** The hex step as the specification words it: a value is taken for a
    hex value exactly when it is six hexadecimal code units, and [hex]
    is then the number they denote. *)
Definition hex_as_stated (s : string) : Prop :=
  ((exists h, sets_hex s h) <-> six_hex_digits s = true)
  /\ (six_hex_digits s = true -> sets_hex s (JS.Int (hex_value s))).

(** Every code unit of [s] is a hexadecimal digit. *)
Fixpoint all_hex (s : string) : bool :=
  match s with
  | EmptyString => true
  | String c s' => CharClass.hexdigit c && all_hex s'
  end.


(** The texts that are not null, in order. *)
Definition texts (cells : list Element) : list string :=
  flat_map (fun cell =>
              match textContent cell with
              | Some t => [t]
              | None => []
              end) cells.

(** A column as the specification words it: the name is the text of
    the first selected cell, the values are the texts of all the
    selected cells after it, nulls left out, trimmed at the end. *)
Definition column_as_stated (table : HTMLTableElement) (i : nat)
  : State (Completion (option ColorInfo)) :=
  match querySelectorAll_td_nth_child table i with
  | [] => ret (Normal None)
  | first :: subsequent =>
      r <- new_ColorInfo (textContent first)
                         (map Some (map JS.trimEnd (texts subsequent))) ;;
      match r with
      | Normal c => ret (Normal (Some c))
      | Throw e => ret (Throw e)
      end
  end.

(** Cells for the examples. *)
Definition cell (text : string) : Element := mkElement td (Some text).
Definition heading (text : string) : Element := mkElement th (Some text).

(** * Vocabulary of the further properties *)

(** Every code unit of [s] is in the class [p]. *)
Fixpoint all_units (p : ascii -> bool) (s : string) : bool :=
  match s with
  | EmptyString => true
  | String c s' => p c && all_units p s'
  end.

(** What it is for a string to match an expression, apart from any
    search: the reading of the pattern, against which the backtracking
    matcher is checked. *)
Inductive Matches : regex -> string -> Prop :=
| Matches_Char (p : ascii -> bool) (c : ascii) :
    p c = true -> Matches (Char p) (String c EmptyString)
| Matches_Cat (r1 r2 : regex) (m1 m2 : string) :
    Matches r1 m1 -> Matches r2 m2 -> Matches (Cat r1 r2) (m1 ++ m2)
| Matches_Opt_some (r : regex) (m : string) :
    Matches r m -> Matches (Opt r) m
| Matches_Opt_none (r : regex) :
    Matches (Opt r) EmptyString
| Matches_Plus (p : ascii -> bool) (c : ascii) (m : string) :
    p c = true -> all_units p m = true -> Matches (Plus p) (String c m).

(** The number that a string of decimal digits denotes. *)
Fixpoint dec_value_from (acc : Z) (s : string) : Z :=
  match s with
  | EmptyString => acc
  | String c s' =>
      dec_value_from
        (10 * acc
         + Z.of_nat match JS.digit_value c with Some d => d | None => 0 end)%Z
        s'
  end.

Definition dec_value (s : string) : Z := dec_value_from 0 s.

(** A non-empty string of decimal digits. *)
Definition digits (s : string) : bool :=
  match s with
  | EmptyString => false
  | _ => all_units CharClass.digit s
  end.

(** One white space code unit, as a string. *)
Definition one_space (w : string) : bool :=
  match w with
  | String c EmptyString => CharClass.space c
  | _ => false
  end.

(** The last value of the list that is classified as [f]. *)
Fixpoint last_of (f : Field) (values : list (option string)) : option string :=
  match values with
  | [] => None
  | v :: rest =>
      match last_of f rest with
      | Some s => Some s
      | None =>
          match v with
          | Some s =>
              match classify s with
              | Some g => if Field_eqb f g then Some s else None
              | None => None
              end
          | None => None
          end
      end
  end.

(** A code unit that a CSS variable name made by [cssName] can hold:
    no white space, no per cent sign, no capital A to Z. *)
Definition css_unit (c : ascii) : bool :=
  negb (CharClass.space c) && negb (CharClass.lit "%" c)
  && negb (CharClass.between 65 90 c).

(** A number that is an integer from [lo] to [hi]. *)
Definition Int_between (lo hi : Z) (x : JS.Number) : Prop :=
  exists z, x = JS.Int z /\ (lo <= z <= hi)%Z.

(** A number that is an integer of 0 or more. *)
Definition Int_nonneg (x : JS.Number) : Prop :=
  exists z, x = JS.Int z /\ (0 <= z)%Z.

(** No code unit of [s] is in the class [q]. *)
Definition avoids (q : ascii -> bool) (s : string) : bool :=
  all_units (fun c => negb (q c)) s.

(** Three runs of digits with a comma and one white space code unit
    between them. *)
Definition rgb_text (a : string) (w : ascii) (b : string) (w' : ascii)
           (c : string) : string :=
  a ++ String "," (String w (b ++ String "," (String w' c))).

(** The record a row stands for when it has four cells or more and the
    increment-name pattern matches in the second one. *)
Definition qualifies (row : HTMLTableRowElement) : option Scale :=
  match cells_of row with
  | base :: incrementName :: pixelSize :: remSize :: _ =>
      if matches incrementNameRe incrementName
      then Some (mkScale base incrementName pixelSize remSize)
      else None
  | _ => None
  end.

(** What row [k] of a table can let out: its record, the diagnostic for
    too few cells, or the diagnostic for an increment name that failed
    the test. *)
Definition row_outcome (k : nat) (row : HTMLTableRowElement)
           (e : Event Scale) : Prop :=
  (exists s, e = Yield s /\ qualifies row = Some s)
  \/ (e = StderrWrite (too_few_message k (cells_of row))
      /\ List.length (cells_of row) < 4)
  \/ (exists b n p r rest,
         cells_of row = b :: n :: p :: r :: rest
         /\ e = StderrWrite (invalid_name_message k n)).

(** A hexadecimal digit in lower case. *)
Definition lower_hexdigit (c : ascii) : bool :=
  CharClass.between 48 57 c || CharClass.between 97 102 c.

(** A non-empty run of white space. *)
Definition spaces (ws : string) : bool :=
  match ws with
  | EmptyString => false
  | _ => all_units CharClass.space ws
  end.

(** Digits, white space, digits and a per cent sign. *)
Definition pantone_text (a ws b : string) : string :=
  a ++ ws ++ b ++ "%".
(** * Properties *)

(** ** The expression objects *)

Lemma length_drop (n : nat) (s : string) :
  String.length (drop n s) = String.length s - n.
Proof.
  revert s; induction n as [|n IH]; intros [|c s]; simpl; auto.
Qed.

Lemma match_at_le (r : regex) (s : string) (n : nat) :
  match_at r s = Some n -> n <= String.length s.
Proof.
  unfold match_at.
  destruct (match_k r s (fun rest => Some rest)); intros H; inversion H; lia.
Qed.

Lemma find_from_bounds (r : regex) (s : string) :
  forall pos i n,
    find_from r s pos = Some (i, n) ->
    pos <= i /\ i + n <= pos + String.length s.
Proof.
  induction s as [|c s IH]; intros pos i n; simpl.
  - destruct (match_at r EmptyString) as [m|] eqn:E; [|discriminate].
    intros H; inversion H; subst. apply match_at_le in E. simpl in E. lia.
  - destruct (match_at r (String c s)) as [m|] eqn:E.
    + intros H; inversion H; subst. apply match_at_le in E. simpl in E. lia.
    + intros H. apply IH in H. lia.
Qed.

(** exec either fails and rewinds, or succeeds at or after [lastIndex]
    and leaves [lastIndex] at the end of the match. *)
Lemma RegExp_exec_cases (r : regex) (li : nat) (str : string) :
  RegExp_exec r li str = (None, 0) \/
  exists i n, RegExp_exec r li str = (Some (i, n), i + n)
              /\ li <= i /\ i + n <= String.length str.
Proof.
  unfold RegExp_exec.
  destruct (String.length str <? li) eqn:L; [now left|].
  apply Nat.ltb_ge in L.
  destruct (find_from r (drop li str) li) as [[i n]|] eqn:F; [|now left].
  right. exists i, n. split; [reflexivity|].
  apply find_from_bounds in F. rewrite length_drop in F. lia.
Qed.

Lemma match_loop_rewinds (r : regex) (str : string) :
  forall fuel li,
    li <= String.length str + 1 ->
    String.length str + 2 <= fuel + li ->
    snd (match_loop fuel r li str) = 0.
Proof.
  induction fuel as [|fuel IH]; intros li Hli Hfuel; simpl.
  - lia.
  - destruct (RegExp_exec_cases r li str) as [E|(i & n & E & Hi & Hn)];
      rewrite E; [reflexivity|].
    set (li' := if n =? 0 then S (i + n) else i + n).
    assert (li < li' /\ li' <= String.length str + 1) as [H1 H2].
    { unfold li'. destruct (n =? 0) eqn:N.
      - apply Nat.eqb_eq in N. lia.
      - apply Nat.eqb_neq in N. lia. }
    specialize (IH li' H2).
    destruct (match_loop fuel r li' str) as [A li'']. simpl in *.
    apply IH. lia.
Qed.

(** The fuel of [String_match] is enough: the loop ends because exec
    failed, which leaves [lastIndex] at 0. *)
Lemma String_match_lastIndex (str : string) (r : regex) (li : nat) :
  snd (String_match str r li) = 0.
Proof.
  unfold String_match.
  pose proof (match_loop_rewinds r str (String.length str + 2) 0) as H.
  destruct (match_loop (String.length str + 2) r 0 str) as [A li'].
  simpl in *. apply H; lia.
Qed.

(** [str.match(re)] is [null] exactly when [re] matches nowhere, and
    its element 0 is the leftmost match; the value of [lastIndex]
    before the call plays no part. *)
Lemma String_match_fst (str : string) (r : regex) (li : nat) :
  match fst (String_match str r li) with
  | Some (m0, _) => matches r str = true /\ m0 = first_match r str
  | None => matches r str = false
  end.
Proof.
  unfold String_match, matches, first_match.
  replace (String.length str + 2) with (S (String.length str + 1)) by lia.
  simpl.
  destruct (RegExp_exec r 0 str) as [[[i n]|] li0]; simpl.
  - destruct (match_loop _ r _ str) as [A li']. simpl. auto.
  - reflexivity.
Qed.

Lemma String_match_hit (str : string) (r : regex) (li : nat) :
  matches r str = true ->
  exists rest, String_match str r li = (Some (first_match r str, rest), 0).
Proof.
  intros M.
  pose proof (String_match_fst str r li) as F.
  pose proof (String_match_lastIndex str r li) as L.
  destruct (String_match str r li) as [[[m0 rest]|] li']; simpl in *.
  - destruct F as [_ ->]. subst. now exists rest.
  - congruence.
Qed.

Lemma String_match_miss (str : string) (r : regex) (li : nat) :
  matches r str = false -> String_match str r li = (None, 0).
Proof.
  intros M.
  pose proof (String_match_fst str r li) as F.
  pose proof (String_match_lastIndex str r li) as L.
  destruct (String_match str r li) as [[[m0 rest]|] li']; simpl in *.
  - destruct F as [F _]. congruence.
  - now subst.
Qed.

(** ** Classification of one value *)

Ltac run_match v r st :=
  let M := fresh "M" in
  let rest := fresh "rest" in
  let E := fresh "E" in
  destruct (matches r v) eqn:M;
  [ destruct (String_match_hit v r st M) as [rest E]
  | pose proof (String_match_miss v r st M) as E ];
  rewrite E; clear E; simpl.

(** The loop body is the decision list: the record is updated by the
    first pattern that matches, and only the patterns up to that one
    touch their expression objects. *)
Lemma visit_classify (this : ColorInfo) (v : string) (st : Regs) :
  visit this (Some v) st =
    (match classify v with
     | Some f => populate this f v
     | None => this
     end,
     tested (tests_run (classify v)) st).
Proof.
  unfold visit, bind, classify, ret.
  unfold match_pmsRe.
  run_match v pmsRe (pmsRe_lastIndex st); [reflexivity|].
  unfold match_rgbRe; simpl.
  run_match v rgbRe (rgbRe_lastIndex st); [reflexivity|].
  unfold match_hexRe; simpl.
  run_match v hexRe (hexRe_lastIndex st); [reflexivity|].
  unfold match_sameAsRe; simpl.
  run_match v sameAsRe (sameAsRe_lastIndex st); reflexivity.
Qed.

Lemma for_of_cons (this : ColorInfo) v values (st : Regs) :
  for_of this (v :: values) st =
    for_of (fst (visit this v st)) values (snd (visit this v st)).
Proof.
  simpl. unfold bind. now destruct (visit this v st).
Qed.

Lemma for_of_app (this : ColorInfo) vs1 vs2 (st : Regs) :
  for_of this (vs1 ++ vs2)%list st =
    for_of (fst (for_of this vs1 st)) vs2 (snd (for_of this vs1 st)).
Proof.
  revert this st; induction vs1 as [|v vs1 IH]; intros this st.
  - reflexivity.
  - rewrite <- app_comm_cons, !for_of_cons. apply IH.
Qed.

(** The loop never touches [name]. *)
Lemma name_for_of values : forall this st,
  name (fst (for_of this values st)) = name this.
Proof.
  induction values as [|[v|] values IH]; intros this st.
  - reflexivity.
  - rewrite for_of_cons, IH, visit_classify. simpl.
    destruct (classify v) as [[]|]; reflexivity.
  - rewrite for_of_cons, IH. reflexivity.
Qed.

(** [rgb] is absent at the end exactly when it was absent at the start
    and no value was classified as RGB; the same for [hex]. *)
Lemma rgb_for_of values : forall this st,
  is_null (rgb (fst (for_of this values st))) =
    is_null (rgb this) && negb (found RGB values).
Proof.
  induction values as [|[v|] values IH]; intros this st.
  - simpl. now rewrite andb_true_r.
  - rewrite for_of_cons, IH, visit_classify. simpl.
    destruct (classify v) as [[]|]; simpl;
      try reflexivity; now rewrite andb_false_r.
  - rewrite for_of_cons, IH. reflexivity.
Qed.

Lemma hex_for_of values : forall this st,
  is_null (hex (fst (for_of this values st))) =
    is_null (hex this) && negb (found Hexadecimal values).
Proof.
  induction values as [|[v|] values IH]; intros this st.
  - simpl. now rewrite andb_true_r.
  - rewrite for_of_cons, IH, visit_classify. simpl.
    destruct (classify v) as [[]|]; simpl;
      try reflexivity; now rewrite andb_false_r.
  - rewrite for_of_cons, IH. reflexivity.
Qed.

Lemma isValid_is_null (this : ColorInfo) :
  isValid this = negb (is_null (rgb this) && is_null (hex this)).
Proof.
  unfold isValid. now destruct (rgb this), (hex this).
Qed.

(** The constructor, in one equation. *)
Lemma new_ColorInfo_eq (n : option string) values (st : Regs) :
  fst (new_ColorInfo n values st) =
    match n with
    | None | Some EmptyString =>
        Throw (new_InvalidColorParametersError None n values)
    | Some (String c s) =>
        let this := fst (for_of (blank (String c s)) values st) in
        if isValid this then Normal this
        else Throw (new_InvalidColorParametersError
                      (Some (either_message
                               ++ JS.JSON_stringify_name_values n values))
                      n values)
    end.
Proof.
  destruct n as [[|c s]|]; try reflexivity.
  unfold new_ColorInfo, bind, blank.
  destruct (for_of _ values st) as [this st']. simpl.
  now destruct (isValid this).
Qed.

(** What the loop computes does not depend on where the expression
    objects stood. *)
Lemma for_of_fst_state values : forall this st1 st2,
  fst (for_of this values st1) = fst (for_of this values st2).
Proof.
  induction values as [|[v|] values IH]; intros this st1 st2.
  - reflexivity.
  - rewrite !for_of_cons, !visit_classify. simpl. apply IH.
  - rewrite !for_of_cons. simpl. apply IH.
Qed.

Lemma new_ColorInfo_fst_state n values (st1 st2 : Regs) :
  fst (new_ColorInfo n values st1) = fst (new_ColorInfo n values st2).
Proof.
  rewrite !new_ColorInfo_eq.
  destruct n as [[|c s]|]; try reflexivity.
  now rewrite (for_of_fst_state values _ st1 st2).
Qed.

(** A value that no pattern matches leaves no trace in the record. *)
Lemma for_of_discard vs1 vs2 (s : string) (this : ColorInfo) (st : Regs) :
  classify s = None ->
  fst (for_of this (vs1 ++ Some s :: vs2)%list st) =
    fst (for_of this (vs1 ++ vs2)%list st).
Proof.
  intros C. rewrite !for_of_app, for_of_cons, visit_classify, C. simpl.
  apply for_of_fst_state.
Qed.

(** ** The claims about [ColorInfo] *)

(** C1. Classification fails, and then with InvalidColorParametersError,
    exactly when the name is missing or empty, or when no value of the
    list was classified as an RGB triple and none as a hex value; a
    record that was constructed has [rgb] or [hex] set. *)
Theorem new_ColorInfo_fails_exactly
        (n : option string) (values : list (option string)) (st : Regs) :
  ((exists message,
      fst (new_ColorInfo n values st)
      = Throw (InvalidColorParametersError message))
   <-> (JS.falsy n = true
        \/ (found RGB values = false /\ found Hexadecimal values = false)))
  /\ match fst (new_ColorInfo n values st) with
     | Normal c => isValid c = true /\ (rgb c <> None \/ hex c <> None)
     | Throw e => exists message, e = InvalidColorParametersError message
     end.
Proof.
  rewrite new_ColorInfo_eq.
  destruct n as [[|c s]|].
  - split; [|now eexists]. split; [now left | intros _; now eexists].
  - cbv zeta.
    set (this := fst (for_of (blank (String c s)) values st)).
    assert (R : is_null (rgb this) = negb (found RGB values))
      by (unfold this; now rewrite rgb_for_of).
    assert (H : is_null (hex this) = negb (found Hexadecimal values))
      by (unfold this; now rewrite hex_for_of).
    assert (V : isValid this = found RGB values || found Hexadecimal values).
    { rewrite isValid_is_null, R, H.
      now destruct (found RGB values), (found Hexadecimal values). }
    rewrite V. simpl JS.falsy.
    destruct (found RGB values), (found Hexadecimal values); simpl in *.
    all: split;
      [ split;
        [ intros [m E]; try discriminate; right; now split
        | intros [E|[E1 E2]]; try discriminate; now eexists ]
      | try (now eexists) ].
    all: split; [exact V|].
    + left. intros E. rewrite E in R. discriminate.
    + left. intros E. rewrite E in R. discriminate.
    + right. intros E. rewrite E in H. discriminate.
  - split; [|now eexists]. split; [now left | intros _; now eexists].
Qed.

(** C2. Every value is tested against the patterns in the order
    Pantone, RGB, hex, alias; the first pattern that matches decides the
    one field the value populates, the patterns after it are not tested
    (their expression objects are left as they were), an absent value is
    skipped, and a value that no pattern matches changes nothing and
    raises nothing: the constructor succeeds with it exactly as it does
    without it. *)
Theorem visit_first_match_wins
        (this : ColorInfo) (s : string) (st : Regs) :
  visit this None st = (this, st)
  /\ visit this (Some s) st =
       (match classify s with
        | Some f => populate this f s
        | None => this
        end,
        tested (tests_run (classify s)) st)
  /\ (classify s = None ->
      fst (visit this (Some s) st) = this
      /\ forall n vs1 vs2 c,
          fst (new_ColorInfo n (vs1 ++ Some s :: vs2)%list st) = Normal c
          <-> fst (new_ColorInfo n (vs1 ++ vs2)%list st) = Normal c).
Proof.
  split; [reflexivity|]. split; [apply visit_classify|].
  intros C. split.
  - now rewrite visit_classify, C.
  - intros n vs1 vs2 c. rewrite !new_ColorInfo_eq.
    destruct n as [[|a n]|]; try (split; discriminate).
    cbv beta iota zeta. rewrite (for_of_discard vs1 vs2 s _ st C).
    destruct (isValid _); [tauto | split; discriminate].
Qed.

Lemma visit_first_match_wins_witness :
  classify "n/a" = None
  /\ visit (blank "Red") (Some "n/a") (mkRegs 3 1 4 1)
     = (blank "Red", mkRegs 0 0 0 0).
Proof.
  split; [vm_compute; reflexivity|].
  destruct (visit_first_match_wins (blank "Red") "n/a" (mkRegs 3 1 4 1))
    as [_ [H _]].
  rewrite H. vm_compute. reflexivity.
Defined.

(** The four ways out of [toString]. *)
Lemma toString_cases (this : ColorInfo) (format : option string) :
  let f := match format with Some f => f | None => "hex" end in
  toString this format =
    match hex this, rgb this with
    | Some h, Some c =>
        if String.eqb f "hex"
        then ([], Normal (cssName this ++ ": #" ++ JS.toString16 h ++ ";"))
        else if String.eqb f "rgb"
        then ([], Normal (cssName this ++ ": rgb("
                            ++ JS.join "," (map JS.toString10 c) ++ ");"))
        else toString_throw this f
    | Some h, None =>
        if String.eqb f "hex" || String.eqb f "rgb"
        then ([], Normal (cssName this ++ ": #" ++ JS.toString16 h ++ ";"))
        else toString_throw this f
    | None, Some c =>
        if String.eqb f "rgb" || String.eqb f "hex"
        then ([], Normal (cssName this ++ ": rgb("
                            ++ JS.join "," (map JS.toString10 c) ++ ");"))
        else toString_throw this f
    | None, None => toString_throw this f
    end.
Proof.
  unfold toString. cbv zeta.
  destruct (hex this) as [h|], (rgb this) as [c|]; simpl;
    rewrite ?andb_true_r, ?andb_false_r, ?orb_false_r; reflexivity.
Qed.

(** C4, as stated, fails: asked for "rgb", a record that has only [hex]
    is rendered in hex notation instead of failing. *)
Lemma render_fails_as_stated_counterexample :
  ~ render_fails_as_stated
      (mkColorInfo "Accent 50%" None None (Some (JS.Int 11189196)) None)
      "rgb".
Proof.
  intros (_ & H & _).
  destruct (H eq_refl eq_refl) as [e E]. vm_compute in E. discriminate.
Qed.

(** C4, amended. Rendering fails, with a TypeError, exactly when the
    format is neither "hex" nor "rgb" or when [hex] and [rgb] are both
    absent; when only the backing field of the requested format is
    absent, the record is rendered from the other field. *)
Theorem toString_fails_exactly (this : ColorInfo) (format : option string) :
  let f := match format with Some f => f | None => "hex" end in
  (throws (toString this format)
   <-> ((f <> "hex" /\ f <> "rgb") \/ (hex this = None /\ rgb this = None)))
  /\ (forall e, snd (toString this format) = Throw e ->
                exists message cause, e = TypeError message cause)
  /\ (forall n p s h,
         let this := mkColorInfo n p None (Some h) s in
         toString this (Some "rgb")
         = ([], Normal (cssName this ++ ": #" ++ JS.toString16 h ++ ";")))
  /\ (forall n p s c,
         let this := mkColorInfo n p (Some c) None s in
         toString this (Some "hex")
         = ([], Normal (cssName this ++ ": rgb("
                          ++ JS.join "," (map JS.toString10 c) ++ ");"))).
Proof.
  cbv zeta. split; [|split; [|split; intros; reflexivity]].
  - unfold throws. rewrite toString_cases. cbv zeta.
    set (f := match format with Some f => f | None => "hex" end).
    destruct (hex this) as [h|], (rgb this) as [c|];
      destruct (String.eqb_spec f "hex") as [Eh|Eh];
      destruct (String.eqb_spec f "rgb") as [Er|Er]; simpl;
      split;
      try (intros [e E]; discriminate);
      try (intros [[H1 H2]|[H1 H2]]; congruence);
      try (intros _; eexists; reflexivity);
      try (intros _; left; now split);
      try (intros _; right; now split).
  - intros e. rewrite toString_cases. cbv zeta.
    destruct (hex this) as [h|], (rgb this) as [c|];
      repeat match goal with
             | |- context [String.eqb ?a ?b] => destruct (String.eqb a b)
             end; simpl; intros E; try discriminate;
      inversion E; eauto.
Qed.

(** C8. The name "Accent 50%" gives the CSS variable name
    "--accent-50-percent", and with [hex = 0xAABBCC] the rendering
    "--accent-50-percent: #aabbcc;": lower case, no 0x in front, and
    no fixed width (0x00FF00 is rendered #ff00). *)
Theorem accent_50_percent_rendering :
  let this :=
    mkColorInfo "Accent 50%" None None (Some (JS.Int 11189196)) None in
  cssName this = "--accent-50-percent"
  /\ toString this (Some "hex") = ([], Normal "--accent-50-percent: #aabbcc;")
  /\ toString this None = ([], Normal "--accent-50-percent: #aabbcc;")
  /\ toString (mkColorInfo "Accent 50%" None None (Some (JS.Int 65280)) None)
              (Some "hex")
     = ([], Normal "--accent-50-percent: #ff00;").
Proof.
  cbv zeta. repeat split; vm_compute; reflexivity.
Qed.

(** ** The hex pattern *)

Lemma drop_0 (s : string) : drop 0 s = s.
Proof. now destruct s. Qed.

Lemma drop_S (n : nat) (c : ascii) (s : string) :
  drop (S n) (String c s) = drop n s.
Proof. reflexivity. Qed.

Lemma substring_drop (n : nat) : forall i s,
  substring i n s = substring 0 n (drop i s).
Proof.
  induction i as [|i IH]; intros [|c s]; simpl; auto; now destruct n.
Qed.

(** Anchored, the hex pattern takes six hexadecimal code units or
    fails. *)
Lemma match_at_hexRe (s : string) :
  match_at hexRe s = if hex_run_at s then Some 6 else None.
Proof.
  unfold match_at, hexRe, hex_run_at.
  destruct s as [|c1 [|c2 [|c3 [|c4 [|c5 [|c6 rest]]]]]];
    cbn -[Nat.sub String.length];
    repeat match goal with
           | |- context [CharClass.hexdigit ?c] =>
               destruct (CharClass.hexdigit c); cbn -[Nat.sub String.length]
           end;
    try reflexivity.
  f_equal. cbn [String.length]. lia.
Qed.

(** The search for the hex pattern finds the leftmost run of six
    hexadecimal code units. *)
Lemma find_from_hexRe (s : string) : forall pos,
  match find_from hexRe s pos with
  | Some (i, n) =>
      n = 6 /\ exists k, i = pos + k /\ hex_run_at (drop k s) = true
                         /\ forall j, j < k -> hex_run_at (drop j s) = false
  | None => forall j, hex_run_at (drop j s) = false
  end.
Proof.
  induction s as [|c s IH]; intros pos.
  - cbn [find_from]. rewrite match_at_hexRe. simpl. now intros [|j].
  - cbn [find_from]. rewrite match_at_hexRe.
    destruct (hex_run_at (String c s)) eqn:H.
    + split; [reflexivity|]. exists 0. rewrite drop_0.
      repeat split; [lia | assumption | intros j Hj; lia].
    + specialize (IH (S pos)).
      destruct (find_from hexRe s (S pos)) as [[i n]|].
      * destruct IH as [-> (k & -> & Hk & Hlt)]. split; [reflexivity|].
        exists (S k). rewrite drop_S. repeat split; [lia | assumption |].
        intros [|j] Hj; [now rewrite drop_0 | rewrite drop_S; apply Hlt; lia].
      * intros [|j]; [now rewrite drop_0 | rewrite drop_S; apply IH].
Qed.

Lemma leftmost_hex_run_unique (s : string) (i j : nat) :
  leftmost_hex_run s i -> leftmost_hex_run s j -> i = j.
Proof.
  intros [Hi Li] [Hj Lj].
  destruct (Nat.lt_trichotomy i j) as [H|[H|H]]; [|assumption|].
  - apply Lj in H. congruence.
  - apply Li in H. congruence.
Qed.

Lemma matches_hexRe (s : string) :
  if matches hexRe s
  then exists i, leftmost_hex_run s i /\ first_match hexRe s = substring i 6 s
  else forall j, hex_run_at (drop j s) = false.
Proof.
  unfold matches, first_match, RegExp_exec. simpl (_ <? 0).
  rewrite drop_0.
  pose proof (find_from_hexRe s 0) as F.
  destruct (find_from hexRe s 0) as [[i n]|]; simpl.
  - destruct F as [-> (k & -> & Hk & Hlt)]. exists k.
    split; [split; assumption | reflexivity].
  - exact F.
Qed.

(** What a hexadecimal digit is not, and what it is worth. *)
Lemma hexdigit_facts (c : ascii) :
  CharClass.hexdigit c = true ->
  CharClass.space c = false
  /\ Ascii.eqb c "-" = false /\ Ascii.eqb c "+" = false
  /\ Ascii.eqb c "x" = false /\ Ascii.eqb c "X" = false
  /\ exists d, JS.digit_value c = Some d /\ d < 16.
Proof.
  destruct c as [[] [] [] [] [] [] [] []]; intros H;
    try (vm_compute in H; discriminate H);
    repeat (split; [reflexivity|]);
    eexists; (split; [reflexivity | vm_compute; lia]).
Qed.

Lemma digits_value_hex (s : string) : forall acc,
  all_hex s = true ->
  JS.digits_value 16 (Some acc) s = Some (hex_value_from acc s).
Proof.
  induction s as [|c s IH]; intros acc H; simpl in *.
  - reflexivity.
  - apply andb_prop in H as [Hc Hs].
    destruct (hexdigit_facts c Hc) as (_ & _ & _ & _ & _ & d & -> & Hd).
    apply Nat.ltb_lt in Hd. rewrite Hd. now apply IH.
Qed.

Lemma all_hex_no_space (s : string) : all_hex s = true -> no_space s = true.
Proof.
  induction s as [|c s IH]; simpl; [reflexivity|].
  intros H. apply andb_prop in H as [Hc Hs].
  destruct (hexdigit_facts c Hc) as (-> & _). simpl. auto.
Qed.

(** Parsing a non-empty string of hexadecimal digits in base 16 gives
    the number the digits denote. *)
Lemma parseInt_all_hex (c : ascii) (s : string) :
  all_hex (String c s) = true ->
  JS.parseInt (String c s) (Some 16) = JS.Int (hex_value (String c s)).
Proof.
  intros H. pose proof H as H'. simpl in H'.
  apply andb_prop in H' as [Hc Hs].
  destruct (hexdigit_facts c Hc) as (Sp & Mi & Pl & _ & _ & d & D & Hd).
  unfold JS.parseInt. cbn [JS.trimStart]. rewrite Sp, Mi, Pl.
  cbn [Nat.eqb Nat.ltb Nat.leb negb andb orb].
  assert (JS.strip_0x (String c s) = None) as ->.
  { unfold JS.strip_0x. destruct s as [|x s']; [reflexivity|].
    simpl in Hs. apply andb_prop in Hs as [Hx _].
    destruct (hexdigit_facts x Hx) as (_ & _ & _ & -> & -> & _).
    now rewrite andb_false_r. }
  cbn [JS.digits_value]. rewrite D.
  apply Nat.ltb_lt in Hd. rewrite Hd.
  rewrite (digits_value_hex s _ Hs).
  unfold hex_value. cbn [hex_value_from]. rewrite D.
  f_equal. apply Z.mul_1_l.
Qed.

Lemma hex_run_at_substring (t : string) :
  hex_run_at t = true ->
  all_hex (substring 0 6 t) = true
  /\ exists c s, substring 0 6 t = String c s.
Proof.
  destruct t as [|c1 [|c2 [|c3 [|c4 [|c5 [|c6 rest]]]]]];
    try discriminate.
  unfold hex_run_at. intros H. simpl.
  repeat (apply andb_prop in H as [H ?]).
  split; [|eauto].
  repeat (apply andb_true_intro; split; try assumption).
  now destruct rest.
Qed.

Lemma parseInt_hex_run (s : string) (i : nat) :
  hex_run_at (drop i s) = true ->
  JS.parseInt (substring i 6 s) (Some 16)
  = JS.Int (hex_value (substring i 6 s)).
Proof.
  intros H. rewrite substring_drop.
  destruct (hex_run_at_substring _ H) as [A (c & t & E)].
  rewrite E in *. now apply parseInt_all_hex.
Qed.

(** ** Values without white space match neither of the first two
    patterns *)

Lemma no_space_tail (c : ascii) (s : string) :
  no_space (String c s) = true ->
  CharClass.space c = false /\ no_space s = true.
Proof.
  simpl. intros H. apply andb_prop in H as [H1 H2].
  now destruct (CharClass.space c).
Qed.

Lemma star_k_none {A} (p : ascii -> bool) (k : string -> option A) :
  (forall u, no_space u = true -> k u = None) ->
  forall s, no_space s = true -> star_k p s k = None.
Proof.
  intros K. induction s as [|c s IH]; intros H; simpl.
  - now apply K.
  - destruct (no_space_tail _ _ H) as [_ Hs].
    rewrite (IH Hs). rewrite (K _ H). now destruct (p c).
Qed.

Lemma match_at_pmsRe_no_space (s : string) :
  no_space s = true -> match_at pmsRe s = None.
Proof.
  intros H. unfold match_at, pmsRe. cbn [match_k].
  destruct s as [|c s]; [reflexivity|].
  destruct (no_space_tail _ _ H) as [_ Hs].
  destruct (CharClass.digit c); [|reflexivity].
  rewrite star_k_none; [reflexivity | | assumption].
  intros [|c' u] Hu; [reflexivity|].
  destruct (no_space_tail _ _ Hu) as [-> _]. reflexivity.
Qed.

Lemma match_at_rgbRe_no_space (s : string) :
  no_space s = true -> match_at rgbRe s = None.
Proof.
  intros H. unfold match_at, rgbRe. cbn [match_k].
  destruct s as [|c s]; [reflexivity|].
  destruct (no_space_tail _ _ H) as [_ Hs].
  destruct (CharClass.digit c); [|reflexivity].
  rewrite star_k_none; [reflexivity | | assumption].
  intros [|c' u] Hu; [reflexivity|].
  destruct (no_space_tail _ _ Hu) as [_ Hu'].
  destruct (CharClass.lit "," c'); [|reflexivity].
  destruct u as [|c'' u]; [reflexivity|].
  destruct (no_space_tail _ _ Hu') as [-> _]. reflexivity.
Qed.

Lemma find_from_none (r : regex) :
  (forall u, no_space u = true -> match_at r u = None) ->
  forall s pos, no_space s = true -> find_from r s pos = None.
Proof.
  intros M. induction s as [|c s IH]; intros pos H; cbn [find_from].
  - now rewrite (M _ H).
  - rewrite (M _ H). destruct (no_space_tail _ _ H) as [_ Hs]. now apply IH.
Qed.

Lemma no_space_unmatched (s : string) :
  no_space s = true -> matches pmsRe s = false /\ matches rgbRe s = false.
Proof.
  intros H. unfold matches, RegExp_exec. simpl (_ <? 0). rewrite drop_0.
  rewrite (find_from_none pmsRe match_at_pmsRe_no_space s 0 H).
  rewrite (find_from_none rgbRe match_at_rgbRe_no_space s 0 H).
  now split.
Qed.

(** ** The claim about the hex step *)

Lemma sets_hex_iff (s : string) (h : JS.Number) :
  sets_hex s h <->
  classify s = Some Hexadecimal
  /\ h = JS.parseInt (first_match hexRe s) (Some 16).
Proof.
  split.
  - intros H. specialize (H (blank EmptyString) (mkRegs 0 0 0 0)).
    rewrite visit_classify in H. simpl in H.
    destruct (classify s) as [[]|]; simpl in H; try discriminate.
    inversion H. now split.
  - intros [C ->] this st. now rewrite visit_classify, C.
Qed.

Lemma classify_hex_iff (s : string) :
  classify s = Some Hexadecimal <->
  matches pmsRe s = false /\ matches rgbRe s = false
  /\ matches hexRe s = true.
Proof.
  unfold classify.
  destruct (matches pmsRe s), (matches rgbRe s), (matches hexRe s),
    (matches sameAsRe s); split; try discriminate; try tauto;
    intros (? & ? & ?); discriminate.
Qed.

Lemma six_hex_digits_run (s : string) :
  six_hex_digits s = true ->
  no_space s = true /\ leftmost_hex_run s 0 /\ substring 0 6 s = s.
Proof.
  unfold six_hex_digits. intros H. apply andb_prop in H as [L R].
  apply Nat.eqb_eq in L.
  destruct s as [|c1 [|c2 [|c3 [|c4 [|c5 [|c6 [|c7 rest]]]]]]];
    try discriminate.
  split; [|split].
  - apply all_hex_no_space.
    destruct (hex_run_at_substring _ R) as [A _]. exact A.
  - split; [exact R | intros j Hj; lia].
  - reflexivity.
Qed.

(** C6, as stated, fails: "#FFFFFF" is seven code units, one of them no
    hexadecimal digit, and visiting it sets [hex] to 0xFFFFFF. *)
Lemma hex_as_stated_counterexample : ~ hex_as_stated "#FFFFFF".
Proof.
  intros [[H _] _].
  assert (S : exists h, sets_hex "#FFFFFF" h).
  { exists (JS.Int 16777215). apply sets_hex_iff.
    split; vm_compute; reflexivity. }
  apply H in S. vm_compute in S. discriminate.
Qed.

(** C6, amended. A value is taken for a hex value exactly when it
    matches neither the Pantone nor the RGB pattern and contains six
    hexadecimal code units in a row, anywhere in it; [hex] is then the
    number that the leftmost such run denotes in base 16. A value
    without white space matches neither of the earlier patterns, so it
    only needs the run; and a value that is exactly six hexadecimal
    code units sets [hex] to the number it denotes. *)
Theorem hex_classified_exactly (s : string) (h : JS.Number) :
  (sets_hex s h <->
   matches pmsRe s = false /\ matches rgbRe s = false
   /\ exists i, leftmost_hex_run s i
                /\ h = JS.Int (hex_value (substring i 6 s)))
  /\ (no_space s = true ->
      forall i, leftmost_hex_run s i ->
                sets_hex s (JS.Int (hex_value (substring i 6 s))))
  /\ (six_hex_digits s = true -> sets_hex s (JS.Int (hex_value s))).
Proof.
  assert (Iff : forall h',
             sets_hex s h' <->
             matches pmsRe s = false /\ matches rgbRe s = false
             /\ exists i, leftmost_hex_run s i
                          /\ h' = JS.Int (hex_value (substring i 6 s))).
  { intros h'. rewrite sets_hex_iff, classify_hex_iff.
    pose proof (matches_hexRe s) as M.
    split.
    - intros [(P & R & X) ->]. rewrite X in M.
      destruct M as (i & L & ->). repeat split; try assumption.
      exists i. split; [assumption|].
      apply parseInt_hex_run, L.
    - intros (P & R & i & L & ->).
      destruct (matches hexRe s).
      + destruct M as (i' & L' & ->).
        rewrite (leftmost_hex_run_unique s i i' L L').
        repeat split; try assumption.
        symmetry. apply parseInt_hex_run, L'.
      + destruct L as [L _]. rewrite M in L. discriminate. }
  split; [apply Iff|]. split.
  - intros N i L. apply Iff.
    destruct (no_space_unmatched s N) as [P R]. eauto.
  - intros H. destruct (six_hex_digits_run s H) as (N & L & E).
    apply Iff. destruct (no_space_unmatched s N) as [P R].
    repeat split; try assumption. exists 0. now rewrite E.
Qed.

Lemma hex_classified_exactly_witness :
  (no_space "#FFFFFF" = true /\ leftmost_hex_run "#FFFFFF" 1
   /\ sets_hex "#FFFFFF" (JS.Int 16777215))
  /\ (six_hex_digits "Accede" = true
      /\ sets_hex "Accede" (JS.Int 11325150)).
Proof.
  assert (L : leftmost_hex_run "#FFFFFF" 1).
  { split; [reflexivity | intros [|j] Hj; [reflexivity | lia]]. }
  split.
  - split; [reflexivity|]. split; [exact L|].
    destruct (hex_classified_exactly "#FFFFFF" JS.NaN) as (_ & H & _).
    exact (H eq_refl 1 L).
  - split; [reflexivity|].
    destruct (hex_classified_exactly "Accede" JS.NaN) as (_ & _ & H).
    exact (H eq_refl).
Defined.

(** ** The colour table *)

Lemma textContents_from (k : nat) (cells : list Element) :
  2 <= k ->
  flat_map (fun '(i, cell) =>
              match textContent cell with
              | Some t => if negb (i =? 1) then [JS.trimEnd t] else []
              | None => []
              end) (combine (seq k (List.length cells)) cells)
  = map JS.trimEnd (texts cells).
Proof.
  revert k; induction cells as [|c cells IH]; intros k Hk; simpl.
  - reflexivity.
  - rewrite (IH (S k)) by lia.
    destruct (textContent c); [|reflexivity].
    destruct (Nat.eqb_spec k 1); [lia | reflexivity].
Qed.

(** Entry 1 is dropped, whatever it holds; the other texts are kept in
    order. *)
Lemma textContents_of_eq (first : Element) (rest : list Element) :
  textContents_of (first :: rest) =
    map JS.trimEnd (texts (first :: tl rest)).
Proof.
  unfold textContents_of, entries.
  destruct rest as [|second rest]; simpl.
  - now destruct (textContent first).
  - rewrite textContents_from by lia.
    destruct (textContent first), (textContent second); reflexivity.
Qed.

(** The call for one column, in one equation. *)
Lemma getColorInfoColumn_cases
      (table : HTMLTableElement) (i : nat) (st : Regs) :
  getColorInfoColumn table i st =
    match querySelectorAll_td_nth_child table i with
    | [] => (Normal None, st)
    | first :: rest =>
        let kept := map JS.trimEnd (texts (first :: tl rest)) in
        let (r, st') := new_ColorInfo (hd_error kept) (map Some (tl kept)) st in
        (match r with
         | Normal c => Normal (Some c)
         | Throw e => Throw e
         end, st')
    end.
Proof.
  unfold getColorInfoColumn.
  destruct (querySelectorAll_td_nth_child table i) as [|first rest];
    [reflexivity|].
  rewrite textContents_of_eq. unfold bind. cbv zeta.
  destruct (new_ColorInfo _ _ st) as [[c|e] st']; reflexivity.
Qed.

(** C5, as stated, fails: in a column of two cells, "Red" above
    "FF0000", the second cell is no value of the record. As the claim
    has it the record would be Red with [hex = 0xFF0000]; the
    constructor gets the name and no value at all, and throws. *)
Lemma column_as_stated_counterexample :
  let table := [[cell "Red"]; [cell "FF0000"]] in
  let st := mkRegs 0 0 0 0 in
  getColorInfoColumn table 1 st <> column_as_stated table 1 st
  /\ fst (column_as_stated table 1 st)
     = Normal (Some (mkColorInfo "Red" None None
                                 (Some (JS.Int 16711680)) None))
  /\ fst (getColorInfoColumn table 1 st)
     = Throw (InvalidColorParametersError
                (either_message
                   ++ JS.JSON_stringify_name_values (Some "Red") [])).
Proof.
  cbv zeta. split; [|split].
  - intros B. vm_compute in B. discriminate.
  - vm_compute. reflexivity.
  - vm_compute. reflexivity.
Qed.

(** C5, amended. When no cell is selected at the position no record is
    produced, and the generator goes on to the next position with
    nothing yielded or logged; otherwise the second selected cell
    (entry 1) is left out, and so are the cells whose text is null; the
    texts of the other selected cells are trimmed at the end, the first
    of them is the name handed to the constructor and the ones after
    it, in order, are the values. *)
Theorem getColorInfoColumn_arguments
        (table : HTMLTableElement) (i : nat) (st : Regs) :
  getColorInfoColumn table i st =
    match querySelectorAll_td_nth_child table i with
    | [] => (Normal None, st)
    | first :: rest =>
        let kept := map JS.trimEnd (texts (first :: tl rest)) in
        let (r, st') := new_ColorInfo (hd_error kept) (map Some (tl kept)) st in
        (match r with
         | Normal c => Normal (Some c)
         | Throw e => Throw e
         end, st')
    end
  /\ (querySelectorAll_td_nth_child table i = [] ->
      forall rest,
        for_columns (getColorInfoColumn table) (i :: rest) st
        = for_columns (getColorInfoColumn table) rest st).
Proof.
  split; [apply getColorInfoColumn_cases|].
  intros E rest. cbn [for_columns]. unfold bind.
  rewrite getColorInfoColumn_cases, E. reflexivity.
Qed.

Lemma getColorInfoColumn_arguments_witness :
  let table := [[cell "Red"]; [cell "swatch"]; [cell "255, 0, 0  "]] in
  let st := mkRegs 0 0 0 0 in
  querySelectorAll_td_nth_child table 2 = []
  /\ for_columns (getColorInfoColumn table) [2; 3] st
     = for_columns (getColorInfoColumn table) [3] st
  /\ fst (getColorInfoColumn table 1 st)
     = Normal (Some (mkColorInfo "Red" None
                                 (Some [JS.Int 255; JS.Int 0; JS.Int 0])
                                 None None)).
Proof.
  cbv zeta.
  destruct (getColorInfoColumn_arguments
              [[cell "Red"]; [cell "swatch"]; [cell "255, 0, 0  "]]
              2 (mkRegs 0 0 0 0)) as [_ H2].
  destruct (getColorInfoColumn_arguments
              [[cell "Red"]; [cell "swatch"]; [cell "255, 0, 0  "]]
              1 (mkRegs 0 0 0 0)) as [H1 _].
  split; [reflexivity|]. split; [exact (H2 eq_refl [3])|].
  rewrite H1. vm_compute. reflexivity.
Defined.

Lemma getColorInfoColumn_fst_state (table : HTMLTableElement) (i : nat)
      (st1 st2 : Regs) :
  fst (getColorInfoColumn table i st1) = fst (getColorInfoColumn table i st2).
Proof.
  rewrite !getColorInfoColumn_cases.
  destruct (querySelectorAll_td_nth_child table i) as [|first rest];
    [reflexivity|].
  cbv zeta.
  pose proof (new_ColorInfo_fst_state
                (hd_error (map JS.trimEnd (texts (first :: tl rest))))
                (map Some (tl (map JS.trimEnd (texts (first :: tl rest)))))
                st1 st2) as E.
  destruct (new_ColorInfo _ _ st1) as [r1 s1],
           (new_ColorInfo _ _ st2) as [r2 s2].
  simpl in *. now subst.
Qed.

Section ColorGeneratorFacts.

Variable column : nat -> State (Completion (option ColorInfo)).

Lemma for_columns_cons (i : nat) (rest : list nat) (st : Regs) :
  for_columns column (i :: rest) st =
    match column i st with
    | (Normal (Some colorInfo), st') =>
        let (run, st'') := for_columns column rest st' in
        ((Yield colorInfo :: fst run, snd run), st'')
    | (Normal None, st') => for_columns column rest st'
    | (Throw (InvalidColorParametersError message), st') =>
        let (run, st'') := for_columns column rest st' in
        ((ConsoleError (message ++ JS.LF)
                       (LoggedError (InvalidColorParametersError message))
            :: fst run, snd run), st'')
    | (Throw error, st') => (([], Some error), st')
    end.
Proof.
  cbn [for_columns]. unfold bind, ret.
  destruct (column i st) as [[[c|]|[m|m cause|w]] st']; try reflexivity.
Qed.

Hypothesis column_fst_state :
  forall i st1 st2, fst (column i st1) = fst (column i st2).

Lemma for_columns_fst_state (positions : list nat) : forall st1 st2,
  fst (for_columns column positions st1)
  = fst (for_columns column positions st2).
Proof.
  induction positions as [|i rest IH]; intros st1 st2.
  - reflexivity.
  - rewrite !for_columns_cons.
    pose proof (column_fst_state i st1 st2) as E.
    destruct (column i st1) as [r1 s1], (column i st2) as [r2 s2].
    simpl in E. subst r2.
    destruct r1 as [[c|]|[m|m cause|w]]; try reflexivity.
    + specialize (IH s1 s2).
      destruct (for_columns column rest s1), (for_columns column rest s2).
      simpl in *. now subst.
    + apply IH.
    + specialize (IH s1 s2).
      destruct (for_columns column rest s1), (for_columns column rest s2).
      simpl in *. now subst.
Qed.

End ColorGeneratorFacts.

(** C10. When the call for a column position throws
    InvalidColorParametersError, the generator logs the error on the
    console error stream, yields nothing for that position and goes on
    with the positions that remain; an error of any other kind ends the
    run of the generator at once and is what the run throws. *)
Theorem for_columns_catch
        (column : nat -> State (Completion (option ColorInfo)))
        (i : nat) (rest : list nat) (st st' : Regs) (error : Error) :
  column i st = (Throw error, st') ->
  for_columns column (i :: rest) st =
    match error with
    | InvalidColorParametersError message =>
        let (run, st'') := for_columns column rest st' in
        ((ConsoleError (message ++ JS.LF) (LoggedError error) :: fst run,
          snd run), st'')
    | _ => (([], Some error), st')
    end.
Proof.
  intros E. rewrite for_columns_cons, E. now destruct error.
Qed.

Lemma for_columns_catch_witness :
  let table := [[cell "Red"; cell "Blue"]; [cell ""; cell ""];
                [cell "n/a"; cell "0000FF"]] in
  let st := mkRegs 0 0 0 0 in
  let error :=
    InvalidColorParametersError
      (either_message
         ++ JS.JSON_stringify_name_values (Some "Red") [Some "n/a"]) in
  getColorInfoColumn table 1 st = (Throw error, st)
  /\ getColorInfo table st =
       (([ConsoleError
            (either_message
               ++ JS.JSON_stringify_name_values (Some "Red") [Some "n/a"]
               ++ JS.LF)
            (LoggedError error);
          Yield (mkColorInfo "Blue" None None (Some (JS.Int 255)) None)],
         None), st).
Proof.
  cbv zeta. split; [vm_compute; reflexivity|].
  unfold getColorInfo.
  rewrite (for_columns_catch _ 1 [2; 3] (mkRegs 0 0 0 0) (mkRegs 0 0 0 0)
             (InvalidColorParametersError
                (either_message
                   ++ JS.JSON_stringify_name_values (Some "Red")
                        [Some "n/a"]))).
  - vm_compute. reflexivity.
  - vm_compute. reflexivity.
Defined.

(** ** The scale table *)

Lemma for_rows_app (before after : list HTMLTableRowElement) :
  forall i li,
    for_rows i (before ++ after)%list li =
      let (events, li') := for_rows i before li in
      let (more, li'') := for_rows (i + List.length before) after li' in
      ((events ++ more)%list, li'').
Proof.
  induction before as [|row before IH]; intros i li; simpl.
  - rewrite Nat.add_0_r. now destruct (for_rows i after li).
  - destruct (row_body i row li) as [ev li1].
    rewrite IH. replace (S i + List.length before)
      with (i + S (List.length before)) by lia.
    destruct (for_rows (S i) before li1) as [evs li2].
    destruct (for_rows _ after li2) as [more li3].
    now rewrite app_assoc.
Qed.

(** A row after the header with fewer than four cells left. *)
Lemma row_body_too_few (i : nat) (row : HTMLTableRowElement) (li : nat) :
  i <> 0 ->
  List.length (cells_of row) < 4 ->
  row_body i row li = ([StderrWrite (too_few_message i (cells_of row))], li).
Proof.
  intros Hi Hlen. unfold row_body.
  destruct (Nat.eqb_spec i 0); [contradiction|]. cbv zeta.
  destruct (cells_of row) as [|a [|b [|c [|d rest]]]]; try reflexivity.
  simpl in Hlen. lia.
Qed.

(** C9. A row after the header with fewer than four non-empty cells
    yields nothing; it puts one diagnostic on the error stream, made of
    the index of the row, the number of its cells and the cells
    themselves, and the loop goes on with the next row, the matcher
    being where the rows before left it. *)
Theorem too_few_cells_skipped
        (header : HTMLTableRowElement)
        (before : list HTMLTableRowElement)
        (row : HTMLTableRowElement)
        (after : list HTMLTableRowElement) :
  List.length (cells_of row) < 4 ->
  let i := S (List.length before) in
  let start := for_rows 0 (header :: before) 0 in
  enumerateScaleIncrements (header :: before ++ row :: after) =
    (fst start
       ++ StderrWrite (too_few_message i (cells_of row))
       :: fst (for_rows (S i) after (snd start)))%list
  /\ too_few_message i (cells_of row) =
       JS.LF ++ "Row " ++ JS.nat_toString i
         ++ " should have 4 elements but only has "
         ++ JS.nat_toString (List.length (cells_of row)) ++ "." ++ JS.LF
         ++ JS.JSON_stringify_array (cells_of row) ++ JS.LF.
Proof.
  intros Hlen i start. split; [|reflexivity].
  unfold enumerateScaleIncrements, enumerateScaleIncrements_run,
    querySelectorAll_tr.
  change (header :: before ++ row :: after)%list
    with ((header :: before) ++ row :: after)%list.
  rewrite for_rows_app. fold start.
  destruct start as [events li]. cbn [fst snd].
  cbn [for_rows List.length Nat.add]. fold i.
  rewrite (row_body_too_few i row li) by (unfold i; lia || assumption).
  destruct (for_rows (S i) after li) as [more li']. reflexivity.
Qed.

Lemma too_few_cells_skipped_witness :
  let header := [heading "Base"; heading "Name"; heading "Px"; heading "Rem"] in
  let row := [cell "16"; cell "Base1"; cell "16px"] in
  List.length (cells_of row) < 4
  /\ enumerateScaleIncrements [header; row] =
       [StderrWrite (too_few_message 1 ["16"; "Base1"; "16px"])].
Proof.
  cbv zeta. split; [vm_compute; lia|].
  destruct (too_few_cells_skipped
              [heading "Base"; heading "Name"; heading "Px"; heading "Rem"]
              [] [cell "16"; cell "Base1"; cell "16px"] [])
    as [H _]; [vm_compute; lia|].
  exact H.
Defined.

(** With the matcher at 0, a row after the header with four cells or
    more is yielded exactly when the pattern matches in its second
    cell. *)
Lemma row_body_fresh (i : nat) (row : HTMLTableRowElement)
      (b n p r : string) (rest : list string) :
  i <> 0 ->
  cells_of row = b :: n :: p :: r :: rest ->
  existsb (fun text => JS.falsy (Some text)) (cells_of row) = false ->
  fst (row_body i row 0) =
    if matches incrementNameRe n then [Yield (mkScale b n p r)]
    else [StderrWrite (invalid_name_message i n)].
Proof.
  intros Hi Hc He. unfold row_body.
  destruct (Nat.eqb_spec i 0); [contradiction|]. cbv zeta.
  rewrite He. rewrite Hc. unfold RegExp_test, matches.
  destruct (RegExp_exec incrementNameRe 0 n) as [[m|] li]; reflexivity.
Qed.

(** C3. The claim does not hold of the code: the table below has two
    rows after its header, each with four cells and a second cell that
    matches the pattern, and only the first of them is yielded. The
    expression carries the [g] flag and one object serves all the rows,
    so after the match in "Base-1" the test on "Base-2" starts at
    index 6, fails, and the row is reported as having an invalid
    increment name. *)
Theorem second_matching_row_skipped :
  let table :=
    [[heading "Base"; heading "Name"; heading "Px"; heading "Rem"];
     [cell "16"; cell "Base-1"; cell "16px"; cell "1rem"];
     [cell "18"; cell "Base-2"; cell "18px"; cell "1.125rem"]] in
  matches incrementNameRe "Base-1" = true
  /\ matches incrementNameRe "Base-2" = true
  /\ enumerateScaleIncrements table =
       [Yield (mkScale "16" "Base-1" "16px" "1rem");
        StderrWrite
          ("Row 2 has an invalid increment name: Base-2. "
             ++ "Expected to match Base-?\d+" ++ JS.LF)]
  /\ yields (enumerateScaleIncrements table) =
       [mkScale "16" "Base-1" "16px" "1rem"].
Proof.
  cbv zeta. repeat split; vm_compute; reflexivity.
Qed.

(** ** Running an extraction twice *)

(** Were the expression object of a first pass handed to a second one,
    the second pass would skip a row that the first one yielded. *)
Lemma shared_matcher_differs :
  let table :=
    [[heading "Base"; heading "Name"; heading "Px"; heading "Rem"];
     [cell "16"; cell "Base-1"; cell "16px"; cell "1rem"]] in
  snd (enumerateScaleIncrements_run table) = 6
  /\ yields (fst (for_rows 0 table 0)) = [mkScale "16" "Base-1" "16px" "1rem"]
  /\ yields (fst (for_rows 0 table 6)) = [].
Proof.
  cbv zeta. repeat split; vm_compute; reflexivity.
Qed.

(** C7. Two passes over one table give the same sequence. For the
    colours the second pass starts from the module state that the first
    one left, and the four shared expression objects play no part in the
    result; for the scale increments every pass makes its own expression
    object, with [lastIndex] at 0, whatever the pass before did to
    its own. *)
Theorem extraction_twice (table : HTMLTableElement) (st : Regs) :
  (let (run1, st1) := getColorInfo table st in
   let (run2, _) := getColorInfo table st1 in
   run1 = run2 /\ yields (fst run1) = yields (fst run2))
  /\ (let (events1, li1) := enumerateScaleIncrements_run table in
      let (events2, _) := enumerateScaleIncrements_run table in
      events1 = events2
      /\ yields events1 = yields events2
      /\ events2 = fst (for_rows 0 (querySelectorAll_tr table) 0)).
Proof.
  split.
  - pose proof (for_columns_fst_state (getColorInfoColumn table)
                  (getColorInfoColumn_fst_state table) [1; 2; 3]) as E.
    unfold getColorInfo.
    destruct (for_columns _ [1; 2; 3] st) as [run1 st1] eqn:E1.
    specialize (E st st1). rewrite E1 in E.
    destruct (for_columns _ [1; 2; 3] st1) as [run2 st2].
    simpl in E. subst. now split.
  - unfold enumerateScaleIncrements_run.
    destruct (for_rows 0 (querySelectorAll_tr table) 0) as [events li].
    now repeat split.
Qed.

(** * Further properties *)

(** ** The matcher against the reading of the patterns *)

Lemma append_assoc (a b c : string) : (a ++ b) ++ c = a ++ (b ++ c).
Proof. induction a as [|x a IH]; simpl; [reflexivity | now rewrite IH]. Qed.

Lemma append_nil_r (a : string) : a ++ EmptyString = a.
Proof. induction a as [|x a IH]; simpl; [reflexivity | now rewrite IH]. Qed.

Lemma length_append (a b : string) :
  String.length (a ++ b) = String.length a + String.length b.
Proof. induction a as [|x a IH]; simpl; [reflexivity | now rewrite IH]. Qed.

Lemma substring_0_append (a b : string) :
  substring 0 (String.length a) (a ++ b) = a.
Proof.
  induction a as [|x a IH]; simpl.
  - now destruct b.
  - now rewrite IH.
Qed.

Lemma star_k_sound {A} (p : ascii -> bool) (k : string -> option A) :
  forall s x,
    star_k p s k = Some x ->
    exists m rest, s = m ++ rest /\ all_units p m = true /\ k rest = Some x.
Proof.
  induction s as [|c s IH]; intros x H; simpl in H.
  - exists EmptyString, EmptyString. auto.
  - destruct (p c) eqn:Pc.
    + destruct (star_k p s k) as [y|] eqn:E.
      * inversion H; subst y.
        destruct (IH x eq_refl) as (m & rest & -> & Hm & Hk).
        exists (String c m), rest. simpl. rewrite Pc, Hm. auto.
      * exists EmptyString, (String c s). auto.
    + exists EmptyString, (String c s). auto.
Qed.

(** When the matcher succeeds, what it took from the front of the input
    matches the expression. *)
Lemma match_k_sound {A} (r : regex) :
  forall (s : string) (k : string -> option A) (x : A),
    match_k r s k = Some x ->
    exists m rest, s = m ++ rest /\ Matches r m /\ k rest = Some x.
Proof.
  induction r as [p|r1 IH1 r2 IH2|r1 IH1|p]; intros s k x H; simpl in H.
  - destruct s as [|c s]; [discriminate|].
    destruct (p c) eqn:Pc; [|discriminate].
    exists (String c EmptyString), s. repeat split; auto.
    now constructor.
  - destruct (IH1 _ _ _ H) as (m1 & rest1 & -> & M1 & H1).
    destruct (IH2 _ _ _ H1) as (m2 & rest2 & -> & M2 & H2).
    exists (m1 ++ m2), rest2. rewrite append_assoc.
    repeat split; auto. now constructor.
  - destruct (match_k r1 s k) as [y|] eqn:E.
    + inversion H; subst y.
      destruct (IH1 _ _ _ E) as (m & rest & -> & M & Hk).
      exists m, rest. repeat split; auto. now constructor.
    + exists EmptyString, s. repeat split; auto. apply Matches_Opt_none.
  - destruct s as [|c s]; [discriminate|].
    destruct (p c) eqn:Pc; [|discriminate].
    destruct (star_k_sound p k s x H) as (m & rest & -> & Hm & Hk).
    exists (String c m), rest. repeat split; auto. now constructor.
Qed.

Lemma match_at_sound (r : regex) (s : string) (n : nat) :
  match_at r s = Some n -> Matches r (substring 0 n s).
Proof.
  unfold match_at.
  destruct (match_k r s (fun rest => Some rest)) as [rest|] eqn:E;
    [|discriminate].
  intros H; inversion H; subst n; clear H.
  destruct (match_k_sound r s _ _ E) as (m & rest' & -> & M & Hk).
  inversion Hk; subst rest'.
  rewrite length_append.
  replace (String.length m + String.length rest - String.length rest)
    with (String.length m) by lia.
  now rewrite substring_0_append.
Qed.

Lemma find_from_sound (r : regex) (s : string) : forall pos i n,
  find_from r s pos = Some (i, n) ->
  pos <= i /\ match_at r (drop (i - pos) s) = Some n.
Proof.
  induction s as [|c s IH]; intros pos i n; cbn [find_from].
  - destruct (match_at r EmptyString) as [m|] eqn:E; [|discriminate].
    intros H; inversion H; subst. rewrite Nat.sub_diag. auto.
  - destruct (match_at r (String c s)) as [m|] eqn:E.
    + intros H; inversion H; subst. rewrite Nat.sub_diag, drop_0. auto.
    + intros H. apply IH in H as [Hle Hm]. split; [lia|].
      replace (i - pos) with (S (i - S pos)) by lia. now rewrite drop_S.
Qed.

(** The leftmost match of an expression is a string that matches it. *)
Lemma first_match_Matches (r : regex) (s : string) :
  matches r s = true -> Matches r (first_match r s).
Proof.
  unfold matches, first_match, RegExp_exec. simpl (_ <? 0). rewrite drop_0.
  destruct (find_from r s 0) as [[i n]|] eqn:F; simpl; [|discriminate].
  intros _. apply find_from_sound in F as [_ F]. rewrite Nat.sub_0_r in F.
  rewrite substring_drop. now apply match_at_sound.
Qed.

(** A test that succeeds from some [lastIndex] would succeed from 0. *)
Lemma find_from_drop (r : regex) : forall k s pos,
  find_from r (drop k s) pos <> None -> find_from r s 0 <> None.
Proof.
  induction k as [|k IH]; intros s pos H.
  - rewrite drop_0 in H.
    assert (G : forall t p q, find_from r t p <> None ->
                              find_from r t q <> None).
    { induction t as [|c t IHt]; intros p q; cbn [find_from];
        destruct (match_at r _); try congruence. apply IHt. }
    now apply (G s pos 0).
  - destruct s as [|c s].
    + simpl in H. cbn [find_from] in *.
      destruct (match_at r EmptyString); congruence.
    + rewrite drop_S in H. apply IH in H. cbn [find_from].
      destruct (match_at r (String c s)); [congruence|].
      assert (G : forall t p q, find_from r t p <> None ->
                                find_from r t q <> None).
      { induction t as [|c' t IHt]; intros p q; cbn [find_from];
          destruct (match_at r _); try congruence. apply IHt. }
      now apply (G s 0 1).
Qed.

Lemma RegExp_test_matches (r : regex) (li : nat) (s : string) :
  fst (RegExp_test r li s) = true -> matches r s = true.
Proof.
  unfold RegExp_test, matches, RegExp_exec. simpl (_ <? 0). rewrite drop_0.
  destruct (String.length s <? li); [discriminate|].
  pose proof (find_from_drop r li s li) as D.
  destruct (find_from r (drop li s) li) as [[i n]|]; [|discriminate].
  intros _. destruct (find_from r s 0) as [[i' n']|]; [reflexivity|].
  exfalso. apply D; congruence.
Qed.

(** ** The constructor: which value decides a field *)

(** The fields after the loop, each by the last value classified for
    it. *)
Lemma for_of_fields
        (this : ColorInfo) (values : list (option string)) (st : Regs) :
  let final := fst (for_of this values st) in
  name final = name this
  /\ pms final =
       match last_of Pantone values with
       | Some s => Some (first_match pmsRe s)
       | None => pms this
       end
  /\ rgb final =
       match last_of RGB values with
       | Some s =>
           Some (map (fun x => JS.parseInt x None)
                     (JS.split_comma_space (first_match rgbRe s)))
       | None => rgb this
       end
  /\ hex final =
       match last_of Hexadecimal values with
       | Some s => Some (JS.parseInt (first_match hexRe s) (Some 16))
       | None => hex this
       end
  /\ sameAs final =
       match last_of Alias values with
       | Some s => Some (first_match sameAsRe s)
       | None => sameAs this
       end.
Proof.
  cbv zeta. revert this st.
  induction values as [|v values IH]; intros this st.
  - simpl. auto.
  - rewrite for_of_cons.
    destruct (IH (fst (visit this v st)) (snd (visit this v st)))
      as (Hn & Hp & Hr & Hh & Hs).
    rewrite Hn, Hp, Hr, Hh, Hs. clear IH Hn Hp Hr Hh Hs.
    cbn [last_of].
    destruct v as [s|].
    + rewrite visit_classify. cbn [fst].
      destruct (last_of Pantone values), (last_of RGB values),
        (last_of Hexadecimal values), (last_of Alias values);
        destruct (classify s) as [[]|]; simpl; auto 6.
    + simpl.
      destruct (last_of Pantone values), (last_of RGB values),
        (last_of Hexadecimal values), (last_of Alias values); auto 6.
Qed.

(** X1. Of the values classified for one field the last one decides
    it, whatever values of other kinds stand between or after them; a
    field for which no value is classified stays as it was. *)
Theorem for_of_last_wins
        (this : ColorInfo) (values : list (option string)) (st : Regs) :
  let final := fst (for_of this values st) in
  name final = name this
  /\ pms final =
       match last_of Pantone values with
       | Some s => Some (first_match pmsRe s)
       | None => pms this
       end
  /\ rgb final =
       match last_of RGB values with
       | Some s =>
           Some (map (fun x => JS.parseInt x None)
                     (JS.split_comma_space (first_match rgbRe s)))
       | None => rgb this
       end
  /\ hex final =
       match last_of Hexadecimal values with
       | Some s => Some (JS.parseInt (first_match hexRe s) (Some 16))
       | None => hex this
       end
  /\ sameAs final =
       match last_of Alias values with
       | Some s => Some (first_match sameAsRe s)
       | None => sameAs this
       end.
Proof.
  apply for_of_fields.
Qed.

Lemma last_of_classify
      (f : Field) (values : list (option string)) (s : string) :
  last_of f values = Some s -> classify s = Some f.
Proof.
  induction values as [|v values IH]; cbn [last_of]; [discriminate|].
  destruct (last_of f values) as [s'|]; [intros H; inversion H; subst; auto|].
  destruct v as [t|]; [|discriminate].
  destruct (classify t) as [g|] eqn:C; [|discriminate].
  destruct (Field_eqb f g) eqn:E; [|discriminate].
  intros H; inversion H; subst. rewrite C.
  now destruct f, g.
Qed.

Lemma classify_matches (s : string) (f : Field) :
  classify s = Some f ->
  match f with
  | Pantone => matches pmsRe s
  | RGB => matches rgbRe s
  | Hexadecimal => matches hexRe s
  | Alias => matches sameAsRe s
  end = true.
Proof.
  unfold classify.
  destruct (matches pmsRe s), (matches rgbRe s), (matches hexRe s),
    (matches sameAsRe s); intros H; inversion H; reflexivity.
Qed.

(** ** Decimal digits *)

Lemma digit_facts (c : ascii) :
  CharClass.digit c = true ->
  CharClass.space c = false
  /\ Ascii.eqb c "-" = false /\ Ascii.eqb c "+" = false
  /\ Ascii.eqb c "x" = false /\ Ascii.eqb c "X" = false
  /\ Ascii.eqb c "," = false
  /\ exists d, JS.digit_value c = Some d /\ d < 10.
Proof.
  destruct c as [[] [] [] [] [] [] [] []]; intros H;
    try (vm_compute in H; discriminate H);
    repeat (split; [reflexivity|]);
    eexists; (split; [reflexivity | vm_compute; lia]).
Qed.

Lemma digits_value_dec (s : string) : forall acc,
  all_units CharClass.digit s = true ->
  JS.digits_value 10 (Some acc) s = Some (dec_value_from acc s).
Proof.
  induction s as [|c s IH]; intros acc H; simpl in *.
  - reflexivity.
  - apply andb_prop in H as [Hc Hs].
    destruct (digit_facts c Hc) as (_ & _ & _ & _ & _ & _ & d & -> & Hd).
    apply Nat.ltb_lt in Hd. rewrite Hd. now apply IH.
Qed.

Lemma dec_value_from_nonneg (s : string) : forall acc,
  (0 <= acc)%Z -> (0 <= dec_value_from acc s)%Z.
Proof.
  induction s as [|c s IH]; intros acc H; cbn [dec_value_from];
    [assumption|].
  apply IH. lia.
Qed.

(** Parsing a non-empty string of decimal digits without a radix gives
    the number it denotes in base 10, leading zeros or not. *)
Lemma parseInt_digits (a : string) :
  digits a = true ->
  JS.parseInt a None = JS.Int (dec_value a) /\ (0 <= dec_value a)%Z.
Proof.
  destruct a as [|c s]; [discriminate|]. unfold digits. intros H.
  split; [|apply dec_value_from_nonneg; lia].
  pose proof H as H'. simpl in H'. apply andb_prop in H' as [Hc Hs].
  destruct (digit_facts c Hc) as (Sp & Mi & Pl & _ & _ & _ & d & D & Hd).
  unfold JS.parseInt. cbn [JS.trimStart]. rewrite Sp, Mi, Pl.
  cbn [Nat.eqb Nat.ltb Nat.leb negb andb orb].
  assert (JS.strip_0x (String c s) = None) as ->.
  { unfold JS.strip_0x. destruct s as [|x s']; [reflexivity|].
    simpl in Hs. apply andb_prop in Hs as [Hx _].
    destruct (digit_facts x Hx) as (_ & _ & _ & -> & -> & _).
    now rewrite andb_false_r. }
  cbn [JS.digits_value]. rewrite D.
  apply Nat.ltb_lt in Hd. rewrite Hd.
  rewrite (digits_value_dec s _ Hs).
  unfold dec_value. cbn [dec_value_from]. rewrite D.
  f_equal. apply Z.mul_1_l.
Qed.

(** ** The shape of an RGB match *)

Lemma split_digits_end (a : string) :
  all_units CharClass.digit a = true -> JS.split_comma_space a = [a].
Proof.
  induction a as [|d a IH]; intros H; [reflexivity|].
  simpl in H. apply andb_prop in H as [Hd Ha].
  cbn [JS.split_comma_space].
  destruct a as [|c' a']; [reflexivity|].
  destruct (digit_facts d Hd) as (_ & _ & _ & _ & _ & -> & _).
  cbn [andb]. now rewrite (IH Ha).
Qed.

Lemma split_digits_sep (a rest : string) (w : ascii) :
  all_units CharClass.digit a = true ->
  CharClass.space w = true ->
  JS.split_comma_space (a ++ String "," (String w rest))
  = a :: JS.split_comma_space rest.
Proof.
  intros Ha Hw. induction a as [|d a IH].
  - cbn [append JS.split_comma_space]. now rewrite Hw.
  - simpl in Ha. apply andb_prop in Ha as [Hd Ha].
    specialize (IH Ha).
    cbn [append]. cbn [JS.split_comma_space].
    destruct (digit_facts d Hd) as (_ & _ & _ & _ & _ & E & _).
    destruct (a ++ String "," (String w rest)) as [|c' s''] eqn:A.
    + destruct a; discriminate.
    + rewrite E. cbn [andb]. now rewrite IH.
Qed.

Lemma Matches_Plus_inv (p : ascii -> bool) (m : string) :
  Matches (Plus p) m ->
  all_units p m = true /\ m <> EmptyString.
Proof.
  intros H. inversion H; subst. simpl.
  split; [|discriminate]. now apply andb_true_intro.
Qed.

Lemma Matches_Char_inv (p : ascii -> bool) (m : string) :
  Matches (Char p) m -> exists c, m = String c EmptyString /\ p c = true.
Proof. intros H. inversion H; subst. eauto. Qed.

Lemma Matches_Cat_inv (r1 r2 : regex) (m : string) :
  Matches (Cat r1 r2) m ->
  exists m1 m2, m = m1 ++ m2 /\ Matches r1 m1 /\ Matches r2 m2.
Proof. intros H. inversion H; subst. eauto. Qed.


Lemma digits_all (m : string) :
  digits m = true -> all_units CharClass.digit m = true.
Proof. destruct m; [discriminate | auto]. Qed.



(** ** What a constructed record holds *)

Lemma hex_value_from_bound (s : string) : forall acc,
  all_hex s = true -> (0 <= acc)%Z ->
  (0 <= hex_value_from acc s
   < (acc + 1) * 16 ^ Z.of_nat (String.length s))%Z.
Proof.
  induction s as [|c s IH]; intros acc H Hacc.
  - simpl. lia.
  - simpl in H. apply andb_prop in H as [Hc Hs].
    destruct (hexdigit_facts c Hc) as (_ & _ & _ & _ & _ & d & D & Hd).
    cbn [hex_value_from String.length]. rewrite D.
    specialize (IH (16 * acc + Z.of_nat d)%Z Hs).
    rewrite Nat2Z.inj_succ, Z.pow_succ_r by lia.
    assert (P : (0 < 16 ^ Z.of_nat (String.length s))%Z)
      by (apply Z.pow_pos_nonneg; lia).
    nia.
Qed.

Lemma hex_of_match (s : string) :
  matches hexRe s = true ->
  Int_between 0 16777215 (JS.parseInt (first_match hexRe s) (Some 16)).
Proof.
  intros M. pose proof (matches_hexRe s) as H. rewrite M in H.
  destruct H as (i & [L _] & ->).
  rewrite (parseInt_hex_run s i L).
  eexists. split; [reflexivity|].
  rewrite substring_drop.
  destruct (hex_run_at_substring _ L) as [A _].
  assert (Len : String.length (substring 0 6 (drop i s)) = 6).
  { destruct (drop i s) as [|c1 [|c2 [|c3 [|c4 [|c5 [|c6 rest]]]]]];
      try discriminate. simpl. now destruct rest. }
  pose proof (hex_value_from_bound _ 0%Z A (Z.le_refl 0)) as B.
  rewrite Len in B. unfold hex_value. change (16 ^ Z.of_nat 6)%Z
    with 16777216%Z in B. lia.
Qed.

(** A call of the constructor that returned. *)
Lemma new_ColorInfo_Normal
      (n : option string) (values : list (option string)) (st : Regs)
      (c : ColorInfo) :
  fst (new_ColorInfo n values st) = Normal c ->
  exists nm, n = Some nm /\ nm <> EmptyString
             /\ c = fst (for_of (blank nm) values st)
             /\ isValid c = true.
Proof.
  rewrite new_ColorInfo_eq.
  destruct n as [[|a nm]|]; try discriminate.
  cbv zeta. destruct (isValid _) eqn:V; [|discriminate].
  intros H; inversion H; subst c.
  exists (String a nm). repeat split; auto. discriminate.
Qed.



(** X3. The [hex] of a constructed record, when set, is an integer from
    0 to 0xFFFFFF, never NaN. *)
Theorem hex_in_range
        (n : option string) (values : list (option string)) (st : Regs)
        (c : ColorInfo) (h : JS.Number) :
  fst (new_ColorInfo n values st) = Normal c ->
  hex c = Some h ->
  Int_between 0 16777215 h.
Proof.
  intros H R.
  destruct (new_ColorInfo_Normal _ _ _ _ H) as (nm & _ & _ & -> & _).
  destruct (for_of_fields (blank nm) values st) as (_ & _ & _ & F & _).
  cbv zeta in F. rewrite F in R. clear F.
  destruct (last_of Hexadecimal values) as [s|] eqn:L; [|discriminate].
  inversion R; subst h; clear R.
  apply last_of_classify, classify_matches in L.
  now apply hex_of_match.
Qed.

Lemma hex_in_range_witness :
  let r := new_ColorInfo (Some "Blue") [Some "#0000ff;"] (mkRegs 0 0 0 0) in
  fst r = Normal (mkColorInfo "Blue" None None (Some (JS.Int 255)) None)
  /\ Int_between 0 16777215 (JS.Int 255).
Proof.
  cbv zeta. split; [vm_compute; reflexivity|].
  apply (hex_in_range (Some "Blue") [Some "#0000ff;"] (mkRegs 0 0 0 0)
           (mkColorInfo "Blue" None None (Some (JS.Int 255)) None)).
  - vm_compute. reflexivity.
  - reflexivity.
Defined.

(** X4. A constructed record keeps the name it was given, as it was
    given; its [pms] and [sameAs], when set, are the part of a value
    that matched the pattern, so each matches its pattern in full. *)
Theorem name_and_texts_kept
        (n : option string) (values : list (option string)) (st : Regs)
        (c : ColorInfo) :
  fst (new_ColorInfo n values st) = Normal c ->
  n = Some (name c) /\ name c <> EmptyString
  /\ (forall m, pms c = Some m -> Matches pmsRe m)
  /\ (forall m, sameAs c = Some m -> Matches sameAsRe m).
Proof.
  intros H.
  destruct (new_ColorInfo_Normal _ _ _ _ H) as (nm & -> & N & -> & _).
  destruct (for_of_fields (blank nm) values st) as (Fn & Fp & _ & _ & Fs).
  cbv zeta in *. rewrite Fn. simpl. repeat split; auto.
  - intros m P. rewrite Fp in P.
    destruct (last_of Pantone values) as [s|] eqn:L; [|discriminate].
    inversion P; subst m.
    now apply last_of_classify, classify_matches, first_match_Matches in L.
  - intros m P. rewrite Fs in P.
    destruct (last_of Alias values) as [s|] eqn:L; [|discriminate].
    inversion P; subst m.
    now apply last_of_classify, classify_matches, first_match_Matches in L.
Qed.

Lemma name_and_texts_kept_witness :
  let c := mkColorInfo "Dark Green " (Some "348 100%") None
                       (Some (JS.Int 32768)) None in
  fst (new_ColorInfo (Some "Dark Green ") [Some "PMS 348 100% c"; Some "008000"]
                     (mkRegs 0 0 0 0)) = Normal c
  /\ Some "Dark Green " = Some (name c).
Proof.
  cbv zeta. split; [vm_compute; reflexivity|].
  destruct (name_and_texts_kept
              (Some "Dark Green ") [Some "PMS 348 100% c"; Some "008000"]
              (mkRegs 0 0 0 0)
              (mkColorInfo "Dark Green " (Some "348 100%") None
                           (Some (JS.Int 32768)) None)) as [H _].
  - vm_compute. reflexivity.
  - exact H.
Defined.

(** X5. Rendering a constructed record never fails for the formats
    "hex" and "rgb" nor for an absent format: the call logs nothing and
    returns the CSS variable name, a colon, the colour and a
    semicolon. *)
Theorem toString_of_constructed
        (n : option string) (values : list (option string)) (st : Regs)
        (c : ColorInfo) (format : option string) :
  fst (new_ColorInfo n values st) = Normal c ->
  In format [None; Some "hex"; Some "rgb"] ->
  exists colour,
    toString c format = ([], Normal (cssName c ++ ": " ++ colour ++ ";")).
Proof.
  intros H F.
  destruct (new_ColorInfo_Normal _ _ _ _ H) as (_ & _ & _ & _ & V).
  rewrite toString_cases. cbv zeta. unfold isValid in V.
  destruct F as [<-|[<-|[<-|[]]]];
    destruct (hex c) as [h|], (rgb c) as [l|]; try discriminate; simpl;
    first [ exists ("#" ++ JS.toString16 h); reflexivity
          | exists ("rgb(" ++ JS.join "," (map JS.toString10 l) ++ ")");
            simpl; now rewrite !append_assoc ].
Qed.

Lemma toString_of_constructed_witness :
  let c := mkColorInfo "Red" None (Some [JS.Int 255; JS.Int 0; JS.Int 0])
                       None None in
  fst (new_ColorInfo (Some "Red") [Some "255, 0, 0"] (mkRegs 0 0 0 0))
  = Normal c
  /\ In (Some "hex") [None; Some "hex"; Some "rgb"]
  /\ exists colour,
      toString c (Some "hex")
      = ([], Normal (cssName c ++ ": " ++ colour ++ ";")).
Proof.
  cbv zeta. split; [vm_compute; reflexivity|].
  split; [right; left; reflexivity|].
  apply (toString_of_constructed (Some "Red") [Some "255, 0, 0"]
           (mkRegs 0 0 0 0)).
  - vm_compute. reflexivity.
  - right; left; reflexivity.
Defined.

(** ** The CSS variable name *)

Lemma lower_css_unit (c : ascii) :
  CharClass.space c = false -> CharClass.lit "%" c = false ->
  css_unit (JS.lower c) = true.
Proof.
  destruct c as [[] [] [] [] [] [] [] []]; intros H1 H2;
    try (vm_compute in H1; discriminate H1);
    try (vm_compute in H2; discriminate H2);
    vm_compute; reflexivity.
Qed.

Lemma replaced_units (s : string) :
  all_units (fun c => negb (CharClass.space c) && negb (CharClass.lit "%" c))
            (JS.replace_class (CharClass.lit "%") "-percent"
               (JS.replace_class CharClass.space "-" s)) = true.
Proof.
  induction s as [|c s IH]; [reflexivity|].
  cbn [JS.replace_class].
  destruct (CharClass.space c) eqn:Sp.
  - cbn [append JS.replace_class].
    change (CharClass.lit "%" "-") with false. cbn iota.
    cbn [all_units]. rewrite IH. reflexivity.
  - cbn [JS.replace_class].
    destruct (CharClass.lit "%" c) eqn:Pc.
    + cbn [append all_units]. rewrite IH. reflexivity.
    + cbn [all_units]. rewrite Sp, Pc, IH. reflexivity.
Qed.

Lemma toLowerCase_units (s : string) :
  all_units (fun c => negb (CharClass.space c) && negb (CharClass.lit "%" c))
            s = true ->
  all_units css_unit (JS.toLowerCase s) = true.
Proof.
  induction s as [|c s IH]; [reflexivity|].
  cbn [all_units JS.toLowerCase]. intros H.
  apply andb_prop in H as [Hc Hs]. apply andb_prop in Hc as [H1 H2].
  apply negb_true_iff in H1, H2.
  now rewrite lower_css_unit, IH.
Qed.

(** X6. Whatever the name, the CSS variable name starts with two
    hyphens and holds no white space, no per cent sign and no capital
    A to Z. *)
Theorem cssName_units (this : ColorInfo) :
  (exists body, cssName this = "--" ++ body)
  /\ all_units css_unit (cssName this) = true.
Proof.
  unfold cssName. cbn [append JS.toLowerCase]. split.
  - eexists. reflexivity.
  - change (JS.lower "-") with "-"%char. cbn [all_units].
    rewrite toLowerCase_units by apply replaced_units. reflexivity.
Qed.

(** ** Values without white space *)

Lemma lit_i_space (c : ascii) :
  CharClass.space c = false -> CharClass.lit_i " " c = false.
Proof.
  destruct c as [[] [] [] [] [] [] [] []]; intros H;
    try (vm_compute in H; discriminate H); vm_compute; reflexivity.
Qed.

Lemma match_at_sameAsRe_no_space (s : string) :
  no_space s = true -> match_at sameAsRe s = None.
Proof.
  intros H. unfold match_at, sameAsRe. cbn [match_k].
  destruct s as [|c1 [|c2 [|c3 [|c4 [|c5 s]]]]];
    try (do 4 (apply no_space_tail in H as [_ H]);
         apply no_space_tail in H as [H _];
         rewrite (lit_i_space c5 H));
    repeat match goal with
           | |- context [if ?b then _ else _] => destruct b
           end;
    reflexivity.
Qed.

(** X7. A value without any white space is never taken for a Pantone
    code, an RGB triple or an alias: it is a hex value when it holds
    six hexadecimal digits in a row, and it is discarded otherwise. *)
Theorem no_space_classified (s : string) :
  no_space s = true ->
  classify s = if matches hexRe s then Some Hexadecimal else None.
Proof.
  intros H. unfold classify.
  destruct (no_space_unmatched s H) as [-> ->].
  destruct (matches hexRe s); [reflexivity|].
  unfold matches, RegExp_exec. simpl (_ <? 0). rewrite drop_0.
  now rewrite (find_from_none sameAsRe match_at_sameAsRe_no_space s 0 H).
Qed.

Lemma no_space_classified_witness :
  no_space "SameAsWhite" = true /\ classify "SameAsWhite" = None.
Proof.
  split; [reflexivity|].
  rewrite (no_space_classified "SameAsWhite" eq_refl). reflexivity.
Defined.

(** ** RGB text *)

Lemma avoids_tail (q : ascii -> bool) (c : ascii) (s : string) :
  avoids q (String c s) = true -> q c = false /\ avoids q s = true.
Proof.
  unfold avoids. simpl. intros H. apply andb_prop in H as [H1 H2].
  now apply negb_true_iff in H1.
Qed.

Lemma star_k_avoids {A} (q p : ascii -> bool) (k : string -> option A) :
  (forall u, avoids q u = true -> k u = None) ->
  forall s, avoids q s = true -> star_k p s k = None.
Proof.
  intros K. induction s as [|c s IH]; intros H; simpl.
  - now apply K.
  - destruct (avoids_tail _ _ _ H) as [_ Hs].
    rewrite (IH Hs), (K _ H). now destruct (p c).
Qed.

Lemma find_from_avoids (q : ascii -> bool) (r : regex) :
  (forall u, avoids q u = true -> match_at r u = None) ->
  forall s pos, avoids q s = true -> find_from r s pos = None.
Proof.
  intros M. induction s as [|c s IH]; intros pos H; cbn [find_from].
  - now rewrite (M _ H).
  - rewrite (M _ H). destruct (avoids_tail _ _ _ H) as [_ Hs]. now apply IH.
Qed.

(** Without a per cent sign there is no Pantone match. *)
Lemma match_at_pmsRe_no_percent (s : string) :
  avoids (CharClass.lit_i "%") s = true -> match_at pmsRe s = None.
Proof.
  intros H. unfold match_at, pmsRe. cbn [match_k].
  destruct s as [|c s]; [reflexivity|].
  destruct (avoids_tail _ _ _ H) as [_ Hs].
  destruct (CharClass.digit c); [|reflexivity].
  rewrite (star_k_avoids (CharClass.lit_i "%"));
    [reflexivity | | assumption].
  intros [|c1 u1] H1; [reflexivity|].
  destruct (avoids_tail _ _ _ H1) as [_ H1'].
  destruct (CharClass.space c1); [|reflexivity].
  rewrite (star_k_avoids (CharClass.lit_i "%"));
    [reflexivity | | assumption].
  intros [|c2 u2] H2; [reflexivity|].
  destruct (avoids_tail _ _ _ H2) as [_ H2'].
  destruct (CharClass.digit c2); [|reflexivity].
  rewrite (star_k_avoids (CharClass.lit_i "%"));
    [reflexivity | | assumption].
  intros [|c3 u3] H3; [reflexivity|].
  destruct (avoids_tail _ _ _ H3) as [-> _]. reflexivity.
Qed.

Lemma not_percent (c : ascii) :
  CharClass.digit c = true \/ CharClass.space c = true \/ c = ","%char ->
  CharClass.lit_i "%" c = false.
Proof.
  destruct c as [[] [] [] [] [] [] [] []]; intros [H|[H|H]];
    try (vm_compute in H; discriminate H); vm_compute; reflexivity.
Qed.

Lemma avoids_append (q : ascii -> bool) (a b : string) :
  avoids q a = true -> avoids q b = true -> avoids q (a ++ b) = true.
Proof.
  unfold avoids. induction a as [|c a IH]; simpl; auto.
  intros H Hb. apply andb_prop in H as [-> Ha]. simpl. auto.
Qed.

Lemma digits_avoid_percent (a : string) :
  all_units CharClass.digit a = true ->
  avoids (CharClass.lit_i "%") a = true.
Proof.
  unfold avoids. induction a as [|c a IH]; simpl; auto.
  intros H. apply andb_prop in H as [Hc Ha].
  rewrite (not_percent c (or_introl Hc)). simpl. auto.
Qed.

(** Greedy iteration takes a whole run when what follows the run is
    not in the class and the rest of the pattern matches from there. *)
Lemma star_k_greedy {A} (p : ascii -> bool) (k : string -> option A)
      (rest : string) (x : A) :
  match rest with
  | EmptyString => True
  | String c _ => p c = false
  end ->
  k rest = Some x ->
  forall a, all_units p a = true -> star_k p (a ++ rest) k = Some x.
Proof.
  intros Hr Hk. induction a as [|d a IH]; intros Ha.
  - cbn [append]. destruct rest as [|c rest']; simpl; [assumption|].
    now rewrite Hr.
  - simpl in Ha. apply andb_prop in Ha as [Hd Ha].
    cbn [append star_k]. rewrite Hd, (IH Ha). reflexivity.
Qed.

Lemma match_k_Plus_greedy {A} (p : ascii -> bool) (k : string -> option A)
      (rest : string) (x : A) (a : string) :
  match rest with
  | EmptyString => True
  | String c _ => p c = false
  end ->
  k rest = Some x ->
  all_units p a = true -> a <> EmptyString ->
  match_k (Plus p) (a ++ rest) k = Some x.
Proof.
  intros Hr Hk Ha Na. destruct a as [|d a]; [congruence|].
  simpl in Ha. apply andb_prop in Ha as [Hd Ha].
  cbn [append match_k]. rewrite Hd. now apply star_k_greedy.
Qed.

Lemma substring_full (s : string) : substring 0 (String.length s) s = s.
Proof.
  induction s as [|c s IH]; simpl; [reflexivity | now rewrite IH].
Qed.

Lemma digits_nonempty (a : string) : digits a = true -> a <> EmptyString.
Proof. destruct a; [discriminate | discriminate]. Qed.

Lemma not_digit (c : ascii) :
  c = ","%char \/ CharClass.space c = true -> CharClass.digit c = false.
Proof.
  destruct c as [[] [] [] [] [] [] [] []]; intros [H|H];
    try (vm_compute in H; discriminate H); vm_compute; reflexivity.
Qed.

(** The RGB pattern takes the whole of an RGB text. *)
Lemma match_at_rgb_text (a b c : string) (w w' : ascii) :
  digits a = true -> digits b = true -> digits c = true ->
  CharClass.space w = true -> CharClass.space w' = true ->
  match_at rgbRe (rgb_text a w b w' c)
  = Some (String.length (rgb_text a w b w' c)).
Proof.
  intros Ha Hb Hc Hw Hw'.
  unfold match_at.
  assert (E : match_k rgbRe (rgb_text a w b w' c) (fun rest => Some rest)
              = Some EmptyString).
  { unfold rgbRe, rgb_text. cbn [match_k].
    apply match_k_Plus_greedy;
      [apply not_digit; now left | | now apply digits_all
      | now apply digits_nonempty].
    cbn [match_k]. change (CharClass.lit "," ",") with true. cbn iota.
    rewrite Hw.
    apply match_k_Plus_greedy;
      [apply not_digit; now left | | now apply digits_all
      | now apply digits_nonempty].
    cbn [match_k]. change (CharClass.lit "," ",") with true. cbn iota.
    rewrite Hw'.
    rewrite <- (append_nil_r c) at 1.
    apply match_k_Plus_greedy;
      [exact I | reflexivity | now apply digits_all
      | now apply digits_nonempty]. }
  rewrite E. simpl String.length. now rewrite Nat.sub_0_r.
Qed.

Lemma rgb_text_avoids_percent (a b c : string) (w w' : ascii) :
  digits a = true -> digits b = true -> digits c = true ->
  CharClass.space w = true -> CharClass.space w' = true ->
  avoids (CharClass.lit_i "%") (rgb_text a w b w' c) = true.
Proof.
  intros Ha Hb Hc Hw Hw'. unfold rgb_text.
  apply avoids_append; [now apply digits_avoid_percent, digits_all|].
  unfold avoids. cbn [all_units].
  rewrite (not_percent "," (or_intror (or_intror eq_refl))).
  rewrite (not_percent w (or_intror (or_introl Hw))). cbn [negb andb].
  apply avoids_append; [now apply digits_avoid_percent, digits_all|].
  unfold avoids. cbn [all_units].
  rewrite (not_percent "," (or_intror (or_intror eq_refl))).
  rewrite (not_percent w' (or_intror (or_introl Hw'))). cbn [negb andb].
  now apply digits_avoid_percent, digits_all.
Qed.

(** X8. A value made of three runs of digits, with a comma and one
    white space code unit between them, is taken for an RGB triple, and
    [rgb] becomes the three numbers the runs denote in base 10: leading
    zeros do not matter and no range is checked. The runs are taken to
    be of 15 digits at most, which a JavaScript number holds exactly. *)
Theorem rgb_text_parsed
        (a b c : string) (w w' : ascii) (this : ColorInfo) (st : Regs) :
  digits a = true -> digits b = true -> digits c = true ->
  String.length a <= 15 -> String.length b <= 15 ->
  String.length c <= 15 ->
  CharClass.space w = true -> CharClass.space w' = true ->
  classify (rgb_text a w b w' c) = Some RGB
  /\ fst (visit this (Some (rgb_text a w b w' c)) st)
     = set_rgb this [JS.Int (dec_value a); JS.Int (dec_value b);
                     JS.Int (dec_value c)].
Proof.
  intros Ha Hb Hc _ _ _ Hw Hw'.
  set (s := rgb_text a w b w' c).
  assert (P : matches pmsRe s = false).
  { unfold matches, RegExp_exec. simpl (_ <? 0). rewrite drop_0.
    rewrite (find_from_avoids _ pmsRe match_at_pmsRe_no_percent s 0);
      [reflexivity|].
    now apply rgb_text_avoids_percent. }
  assert (F : fst (RegExp_exec rgbRe 0 s) = Some (0, String.length s)).
  { unfold RegExp_exec. simpl (_ <? 0). rewrite drop_0.
    assert (find_from rgbRe s 0 = Some (0, String.length s)) as ->.
    { unfold s at 1. destruct (rgb_text a w b w' c) eqn:E.
      - cbn [find_from]. rewrite <- E at 1.
        rewrite match_at_rgb_text by assumption. now rewrite E.
      - cbn [find_from]. rewrite <- E at 1.
        rewrite match_at_rgb_text by assumption. unfold s. now rewrite E. }
    reflexivity. }
  assert (R : matches rgbRe s = true) by (unfold matches; now rewrite F).
  assert (M : first_match rgbRe s = s).
  { unfold first_match. rewrite F. apply substring_full. }
  assert (C : classify s = Some RGB) by (unfold classify; now rewrite P, R).
  split; [exact C|].
  rewrite visit_classify, C. cbn [fst populate]. rewrite M.
  unfold s, rgb_text.
  rewrite split_digits_sep by auto using digits_all.
  rewrite split_digits_sep by auto using digits_all.
  rewrite split_digits_end by auto using digits_all.
  cbn [map].
  destruct (parseInt_digits a Ha) as [-> _].
  destruct (parseInt_digits b Hb) as [-> _].
  destruct (parseInt_digits c Hc) as [-> _].
  reflexivity.
Qed.

Lemma rgb_text_parsed_witness :
  digits "0255" = true /\ digits "07" = true /\ digits "999" = true
  /\ CharClass.space " " = true
  /\ fst (visit (blank "Red") (Some "0255, 07, 999") (mkRegs 0 0 0 0))
     = set_rgb (blank "Red") [JS.Int 255; JS.Int 7; JS.Int 999].
Proof.
  repeat (split; [reflexivity|]).
  assert (L : forall s, (String.length s <=? 15) = true
                        -> String.length s <= 15)
    by (intros s; apply Nat.leb_le).
  destruct (rgb_text_parsed "0255" "07" "999" " " " " (blank "Red")
              (mkRegs 0 0 0 0) eq_refl eq_refl eq_refl
              (L "0255" eq_refl) (L "07" eq_refl) (L "999" eq_refl)
              eq_refl eq_refl)
    as [_ H].
  exact H.
Defined.

(** The constructor returns a valid record or throws its own error. *)
Lemma new_ColorInfo_fails_by_name
      (n : option string) (values : list (option string)) (st : Regs) :
  (exists c, fst (new_ColorInfo n values st) = Normal c /\ isValid c = true)
  \/ (exists message,
        fst (new_ColorInfo n values st)
        = Throw (InvalidColorParametersError message)).
Proof.
  rewrite new_ColorInfo_eq.
  destruct n as [[|a nm]|]; try (right; eexists; reflexivity).
  cbv zeta. destruct (isValid _) eqn:V.
  - left. eauto.
  - right. eexists. reflexivity.
Qed.

(** ** The colour generator as a whole *)

Lemma getColorInfoColumn_outcome
      (table : HTMLTableElement) (i : nat) (st : Regs) :
  match fst (getColorInfoColumn table i st) with
  | Normal (Some c) => isValid c = true
  | Normal None => True
  | Throw e => exists message, e = InvalidColorParametersError message
  end.
Proof.
  rewrite getColorInfoColumn_cases.
  destruct (querySelectorAll_td_nth_child table i) as [|first rest];
    [exact I|].
  cbv zeta.
  set (kept := map JS.trimEnd (texts (first :: tl rest))).
  destruct (new_ColorInfo_fails_by_name (hd_error kept) (map Some (tl kept)) st)
    as [H|H].
  - destruct H as (c & E & V).
    destruct (new_ColorInfo _ _ st) as [r st']. simpl in *. now subst.
  - destruct H as (m & E).
    destruct (new_ColorInfo _ _ st) as [r st']. simpl in *. subst. eauto.
Qed.

Section ColorGeneratorTotal.

Variable column : nat -> State (Completion (option ColorInfo)).

Hypothesis column_outcome :
  forall i st,
    match fst (column i st) with
    | Normal (Some c) => isValid c = true
    | Normal None => True
    | Throw e => exists message, e = InvalidColorParametersError message
    end.

Lemma for_columns_total (positions : list nat) : forall st,
  let run := fst (for_columns column positions st) in
  snd run = None
  /\ List.length (fst run) <= List.length positions
  /\ Forall (fun c => isValid c = true) (yields (fst run)).
Proof.
  induction positions as [|i rest IH]; intros st; cbv zeta.
  - simpl. auto.
  - rewrite for_columns_cons.
    pose proof (column_outcome i st) as O.
    destruct (column i st) as [[[c|]|e] st']; simpl in O.
    + specialize (IH st'). cbv zeta in IH.
      destruct (for_columns column rest st') as [run st''].
      simpl in *. destruct IH as (A & B & C).
      split; [assumption|]. split; [lia|]. now constructor.
    + specialize (IH st'). cbv zeta in IH.
      destruct IH as (A & B & C). cbn [List.length].
      split; [assumption|]. split; [lia | assumption].
    + destruct O as [m ->].
      specialize (IH st'). cbv zeta in IH.
      destruct (for_columns column rest st') as [run st''].
      simpl in *. destruct IH as (A & B & C).
      split; [assumption|]. split; [lia | assumption].
Qed.

End ColorGeneratorTotal.

(** X9. The generator over a colour table never throws: the only error
    the constructor raises is the one the [catch] clause handles. A run
    lets out at most three events, one for a column position at most,
    and every record it yields has [rgb] or [hex] set. *)
Theorem getColorInfo_never_throws (table : HTMLTableElement) (st : Regs) :
  let run := fst (getColorInfo table st) in
  snd run = None
  /\ List.length (fst run) <= 3
  /\ Forall (fun c => isValid c = true) (yields (fst run)).
Proof.
  exact (for_columns_total (getColorInfoColumn table)
           (getColorInfoColumn_outcome table) [1; 2; 3] st).
Qed.

Lemma getColorInfo_fst_state (table : HTMLTableElement) (st1 st2 : Regs) :
  fst (getColorInfo table st1) = fst (getColorInfo table st2).
Proof.
  apply for_columns_fst_state, getColorInfoColumn_fst_state.
Qed.

(** X10. [getColorInfosFromTable] always returns: its array is what
    each table yields on its own, table after table in the order of the
    list, so a column that fails in one table costs no record of any
    other column or table. *)
Theorem getColorInfosFromTable_concat
        (tables : list HTMLTableElement) (st : Regs) :
  snd (fst (getColorInfosFromTable tables st))
  = Normal (flat_map (fun t => yields (fst (fst (getColorInfo t st)))) tables).
Proof.
  revert st; induction tables as [|t tables IH]; intros st.
  - reflexivity.
  - cbn [getColorInfosFromTable flat_map]. unfold bind.
    pose proof (getColorInfo_never_throws t st) as (N & _ & _).
    destruct (getColorInfo t st) as [run st'] eqn:E. simpl in N.
    rewrite N. specialize (IH st').
    destruct (getColorInfosFromTable tables st') as [more st''].
    simpl in *. rewrite IH. do 2 f_equal.
    apply flat_map_ext. intros t'.
    now rewrite (getColorInfo_fst_state t' st' st).
Qed.

(** ** The scale rows *)

Lemma truthy_not_falsy (texts : list (option string)) :
  existsb (fun text => JS.falsy (Some text)) (truthy texts) = false.
Proof.
  induction texts as [|[[|c s]|] texts IH]; simpl; auto.
Qed.

(** After the filter no cell is empty, so the branch that reports an
    empty element is never taken: a row after the header is reported as
    too short, or its second cell is tested and the row is yielded or
    reported as having an invalid increment name. *)
Lemma row_body_cases (i : nat) (row : HTMLTableRowElement) (li : nat) :
  row_body (S i) row li =
    match cells_of row with
    | b :: n :: p :: r :: _ =>
        (if fst (RegExp_test incrementNameRe li n)
         then [Yield (mkScale b n p r)]
         else [StderrWrite (invalid_name_message (S i) n)],
         snd (RegExp_test incrementNameRe li n))
    | _ => ([StderrWrite (too_few_message (S i) (cells_of row))], li)
    end.
Proof.
  unfold row_body. cbn [Nat.eqb]. cbv zeta.
  pose proof (truthy_not_falsy
                (map (fun cell => or_null (textContent cell))
                     (querySelectorAll_td row))) as T.
  fold (cells_of row) in T.
  destruct (cells_of row) as [|b [|n [|p [|r rest]]]]; try reflexivity.
  rewrite T.
  now destruct (RegExp_test incrementNameRe li n) as [[] li'].
Qed.

Lemma RegExp_test_false (r : regex) (li : nat) (s : string) :
  fst (RegExp_test r li s) = false -> snd (RegExp_test r li s) = 0.
Proof.
  unfold RegExp_test.
  destruct (RegExp_exec_cases r li s) as [E|(i & n & E & _)]; rewrite E;
    [reflexivity | discriminate].
Qed.

Lemma RegExp_test_0 (r : regex) (s : string) :
  fst (RegExp_test r 0 s) = matches r s.
Proof.
  unfold RegExp_test, matches.
  now destruct (RegExp_exec r 0 s) as [[m|] li].
Qed.

Lemma In_for_rows (rows : list HTMLTableRowElement) :
  forall i li e,
    In e (fst (for_rows i rows li)) ->
    exists j row,
      nth_error rows j = Some row /\ i + j <> 0
      /\ row_outcome (i + j) row e.
Proof.
  induction rows as [|row rows IH]; intros i li e H.
  - destruct H.
  - cbn [for_rows] in H.
    destruct (row_body i row li) as [ev li1] eqn:B.
    specialize (IH (S i) li1 e).
    destruct (for_rows (S i) rows li1) as [more li2].
    cbn [fst] in *. apply in_app_or in H as [H|H].
    + exists 0, row. rewrite Nat.add_0_r.
      destruct i as [|i].
      { unfold row_body in B. simpl in B. inversion B; subst. destruct H. }
      split; [reflexivity|]. split; [lia|].
      rewrite row_body_cases in B. unfold row_outcome, qualifies.
      destruct (cells_of row) as [|b [|n [|p [|r rest]]]] eqn:C;
        inversion B; subst; clear B.
      * right; left. destruct H as [<-|[]]. simpl. split; [reflexivity|lia].
      * right; left. destruct H as [<-|[]]. simpl. split; [reflexivity|lia].
      * right; left. destruct H as [<-|[]]. simpl. split; [reflexivity|lia].
      * right; left. destruct H as [<-|[]]. simpl. split; [reflexivity|lia].
      * destruct (fst (RegExp_test incrementNameRe li n)) eqn:T.
        -- left. destruct H as [<-|[]]. eexists. split; [reflexivity|].
           now rewrite (RegExp_test_matches _ _ _ T).
        -- right; right. destruct H as [<-|[]]. now exists b, n, p, r, rest.
    + destruct (IH H) as (j & row' & N & P & O).
      exists (S j), row'. replace (i + S j) with (S i + j) by lia. auto.
Qed.

Lemma length_for_rows (rows : list HTMLTableRowElement) :
  forall i li,
    List.length (fst (for_rows (S i) rows li)) = List.length rows.
Proof.
  induction rows as [|row rows IH]; intros i li; [reflexivity|].
  cbn [for_rows]. rewrite row_body_cases.
  specialize (IH (S i)).
  destruct (cells_of row) as [|b [|n [|p [|r rest]]]];
    match goal with
    | |- context [for_rows (S (S i)) rows ?l] =>
        specialize (IH l); destruct (for_rows (S (S i)) rows l)
    end;
    cbn [fst] in *; rewrite length_app, IH;
    try reflexivity.
  now destruct (fst (RegExp_test incrementNameRe li n)).
Qed.

(** X11. Row 0 gives nothing, whatever it holds, and every other row
    gives exactly one event: a run has as many events, yields and
    diagnostics together, as the table has rows after the first. *)
Theorem one_event_per_row
        (header : HTMLTableRowElement) (rows : list HTMLTableRowElement) :
  List.length (enumerateScaleIncrements (header :: rows)) = List.length rows
  /\ (forall other,
         enumerateScaleIncrements (other :: rows)
         = enumerateScaleIncrements (header :: rows))
  /\ enumerateScaleIncrements [] = [].
Proof.
  unfold enumerateScaleIncrements, enumerateScaleIncrements_run,
    querySelectorAll_tr.
  assert (E : forall h, fst (for_rows 0 (h :: rows) 0)
                        = fst (for_rows 1 rows 0)).
  { intros h. cbn [for_rows]. unfold row_body. cbn [Nat.eqb].
    now destruct (for_rows 1 rows 0). }
  split; [|split].
  - rewrite E. apply length_for_rows.
  - intros other. now rewrite !E.
  - reflexivity.
Qed.

(** X12. Every event of a run comes from a row after the first: a
    yielded record is made of the first four non-empty cells of its
    row, in order, and the pattern matches somewhere in its increment
    name; a diagnostic is the one for too few cells, of a row with fewer
    than four, or the one for an invalid increment name. The diagnostic
    for an empty element is never written. *)
Theorem events_come_from_rows
        (table : HTMLTableElement) (e : Event Scale) :
  In e (enumerateScaleIncrements table) ->
  exists k row,
    nth_error table k = Some row /\ k <> 0 /\ row_outcome k row e.
Proof.
  unfold enumerateScaleIncrements, enumerateScaleIncrements_run,
    querySelectorAll_tr.
  intros H. apply In_for_rows in H as (j & row & N & P & O).
  exists j, row. auto.
Qed.

Lemma events_come_from_rows_witness :
  let table :=
    [[heading "Base"; heading "Name"; heading "Px"; heading "Rem"];
     [cell "16"; cell ""; cell "Base-1"; cell "16px"; cell "1rem";
      cell "note"]] in
  let e := Yield (mkScale "16" "Base-1" "16px" "1rem") in
  In e (enumerateScaleIncrements table)
  /\ exists k row,
      nth_error table k = Some row /\ k <> 0 /\ row_outcome k row e.
Proof.
  cbv zeta.
  assert (H : In (Yield (mkScale "16" "Base-1" "16px" "1rem"))
                 (enumerateScaleIncrements
                    [[heading "Base"; heading "Name"; heading "Px";
                      heading "Rem"];
                     [cell "16"; cell ""; cell "Base-1"; cell "16px";
                      cell "1rem"; cell "note"]]))
    by (vm_compute; left; reflexivity).
  split; [exact H|].
  exact (events_come_from_rows _ _ H).
Defined.

Lemma qualifies_cells (row : HTMLTableRowElement) (s : Scale) :
  qualifies row = Some s ->
  exists rest,
    cells_of row
    = base s :: incrementName s :: pixelSize s :: remSize s :: rest
    /\ matches incrementNameRe (incrementName s) = true.
Proof.
  unfold qualifies.
  destruct (cells_of row) as [|b [|n [|p [|r rest]]]]; try discriminate.
  destruct (matches incrementNameRe n) eqn:M; [|discriminate].
  intros H; inversion H; subst; simpl. eauto.
Qed.

(** A row that qualifies, met with the matcher at 0, is yielded. *)
Lemma row_body_qualifies_0 (i : nat) (row : HTMLTableRowElement) (s : Scale) :
  qualifies row = Some s -> fst (row_body (S i) row 0) = [Yield s].
Proof.
  intros Q. destruct (qualifies_cells row s Q) as (rest & C & M).
  rewrite row_body_cases, C. cbn [fst].
  rewrite RegExp_test_0, M. now destruct s.
Qed.

(** A row that qualifies is yielded, or the test fails and leaves the
    matcher at 0. *)
Lemma row_body_qualifies (i : nat) (row : HTMLTableRowElement) (s : Scale)
      (li : nat) :
  qualifies row = Some s ->
  fst (row_body (S i) row li) = [Yield s]
  \/ snd (row_body (S i) row li) = 0.
Proof.
  intros Q. destruct (qualifies_cells row s Q) as (rest & C & M).
  rewrite row_body_cases, C. cbn [fst snd].
  destruct (fst (RegExp_test incrementNameRe li (incrementName s))) eqn:T.
  - left. now destruct s.
  - right. now apply RegExp_test_false.
Qed.

Lemma for_rows_cons (i : nat) (row : HTMLTableRowElement)
      (rows : list HTMLTableRowElement) (li : nat) :
  fst (for_rows i (row :: rows) li)
  = (fst (row_body i row li)
       ++ fst (for_rows (S i) rows (snd (row_body i row li))))%list.
Proof.
  cbn [for_rows]. destruct (row_body i row li) as [ev li1]. cbn [fst snd].
  now destruct (for_rows (S i) rows li1).
Qed.

Lemma for_rows_app_fst (before after : list HTMLTableRowElement)
      (i li : nat) :
  fst (for_rows i (before ++ after)%list li)
  = (fst (for_rows i before li)
       ++ fst (for_rows (i + List.length before) after
                        (snd (for_rows i before li))))%list.
Proof.
  rewrite for_rows_app. destruct (for_rows i before li) as [ev li1].
  cbn [fst snd]. now destruct (for_rows _ after li1).
Qed.

(** X13. Of two rows that follow one another after the header and both
    qualify, at least one is yielded: when the test fails on the first,
    it leaves the matcher at 0, and from 0 the second passes. *)
Theorem one_of_two_neighbours_yielded
        (header : HTMLTableRowElement)
        (before : list HTMLTableRowElement)
        (row1 row2 : HTMLTableRowElement)
        (after : list HTMLTableRowElement) (s1 s2 : Scale) :
  qualifies row1 = Some s1 ->
  qualifies row2 = Some s2 ->
  let events :=
    enumerateScaleIncrements (header :: before ++ row1 :: row2 :: after) in
  In (Yield s1) events \/ In (Yield s2) events.
Proof.
  intros Q1 Q2 events. unfold events, enumerateScaleIncrements,
    enumerateScaleIncrements_run, querySelectorAll_tr.
  change (header :: before ++ row1 :: row2 :: after)%list
    with ((header :: before) ++ row1 :: row2 :: after)%list.
  rewrite for_rows_app_fst.
  set (li := snd (for_rows 0 (header :: before) 0)).
  cbn [List.length Nat.add].
  rewrite (for_rows_cons _ row1).
  destruct (row_body_qualifies (List.length before) row1 s1 li Q1) as [Y|Z].
  - left. apply in_or_app. right. apply in_or_app. left.
    rewrite Y. now left.
  - right. apply in_or_app. right. apply in_or_app. right.
    rewrite Z, (for_rows_cons _ row2). apply in_or_app. left.
    rewrite (row_body_qualifies_0 _ row2 s2 Q2). now left.
Qed.

Lemma one_of_two_neighbours_yielded_witness :
  let header := [heading "Base"; heading "Name"; heading "Px"; heading "Rem"] in
  let row1 := [cell "16"; cell "Base-1"; cell "16px"; cell "1rem"] in
  let row2 := [cell "18"; cell "Base-2"; cell "18px"; cell "1.125rem"] in
  qualifies row1 = Some (mkScale "16" "Base-1" "16px" "1rem")
  /\ qualifies row2 = Some (mkScale "18" "Base-2" "18px" "1.125rem")
  /\ (In (Yield (mkScale "16" "Base-1" "16px" "1rem"))
         (enumerateScaleIncrements [header; row1; row2])
      \/ In (Yield (mkScale "18" "Base-2" "18px" "1.125rem"))
            (enumerateScaleIncrements [header; row1; row2])).
Proof.
  cbv zeta. split; [reflexivity|]. split; [reflexivity|].
  exact (one_of_two_neighbours_yielded
           [heading "Base"; heading "Name"; heading "Px"; heading "Rem"]
           []
           [cell "16"; cell "Base-1"; cell "16px"; cell "1rem"]
           [cell "18"; cell "Base-2"; cell "18px"; cell "1.125rem"]
           []
           (mkScale "16" "Base-1" "16px" "1rem")
           (mkScale "18" "Base-2" "18px" "1.125rem")
           eq_refl eq_refl).
Defined.

(** Rows that do not qualify leave the matcher at 0. *)
Lemma for_rows_none_qualify (rows : list HTMLTableRowElement) :
  Forall (fun row => qualifies row = None) rows ->
  forall i, snd (for_rows i rows 0) = 0.
Proof.
  induction 1 as [|row rows Q _ IH]; intros i; [reflexivity|].
  cbn [for_rows].
  assert (B : snd (row_body i row 0) = 0).
  { destruct i as [|i]; [reflexivity|].
    rewrite row_body_cases. unfold qualifies in Q.
    destruct (cells_of row) as [|b [|n [|p [|r rest]]]]; try reflexivity.
    cbn [snd]. apply RegExp_test_false. rewrite RegExp_test_0.
    now destruct (matches incrementNameRe n). }
  destruct (row_body i row 0) as [ev li1]. cbn [snd] in B. subst li1.
  specialize (IH (S i)).
  now destruct (for_rows (S i) rows 0).
Qed.

(** X14. The first row after the header that qualifies is always
    yielded. *)
Theorem first_qualifying_row_yielded
        (header : HTMLTableRowElement)
        (before : list HTMLTableRowElement)
        (row : HTMLTableRowElement)
        (after : list HTMLTableRowElement) (s : Scale) :
  Forall (fun r => qualifies r = None) before ->
  qualifies row = Some s ->
  In (Yield s) (enumerateScaleIncrements (header :: before ++ row :: after)).
Proof.
  intros N Q. unfold enumerateScaleIncrements,
    enumerateScaleIncrements_run, querySelectorAll_tr.
  change (header :: before ++ row :: after)%list
    with ((header :: before) ++ row :: after)%list.
  rewrite for_rows_app_fst.
  assert (Z : snd (for_rows 0 (header :: before) 0) = 0).
  { cbn [for_rows]. unfold row_body at 1. cbn [Nat.eqb].
    pose proof (for_rows_none_qualify before N 1) as Z.
    now destruct (for_rows 1 before 0). }
  rewrite Z. cbn [List.length Nat.add]. rewrite (for_rows_cons _ row).
  apply in_or_app. right. apply in_or_app. left.
  rewrite (row_body_qualifies_0 _ row s Q). now left.
Qed.

Lemma first_qualifying_row_yielded_witness :
  let header := [heading "Base"; heading "Name"; heading "Px"; heading "Rem"] in
  let short := [cell "14"; cell "Base-0"] in
  let other := [cell "15"; cell "Small"; cell "15px"; cell "0.9rem"] in
  let row := [cell "16"; cell "Base-1"; cell "16px"; cell "1rem"] in
  Forall (fun r => qualifies r = None) [short; other]
  /\ qualifies row = Some (mkScale "16" "Base-1" "16px" "1rem")
  /\ In (Yield (mkScale "16" "Base-1" "16px" "1rem"))
        (enumerateScaleIncrements [header; short; other; row]).
Proof.
  cbv zeta.
  assert (N : Forall (fun r => qualifies r = None)
                     [[cell "14"; cell "Base-0"];
                      [cell "15"; cell "Small"; cell "15px"; cell "0.9rem"]])
    by (repeat constructor).
  split; [exact N|]. split; [reflexivity|].
  exact (first_qualifying_row_yielded
           [heading "Base"; heading "Name"; heading "Px"; heading "Rem"]
           _ [cell "16"; cell "Base-1"; cell "16px"; cell "1rem"] []
           (mkScale "16" "Base-1" "16px" "1rem") N eq_refl).
Defined.

(** ** The matcher after a yield *)

Lemma length_substring_0 (s : string) : forall n,
  n <= String.length s -> String.length (substring 0 n s) = n.
Proof.
  induction s as [|c s IH]; intros [|n] H; simpl in *; try lia;
    try reflexivity.
  rewrite IH; lia.
Qed.

Lemma Matches_incrementNameRe_length (m : string) :
  Matches incrementNameRe m -> 5 <= String.length m.
Proof.
  unfold incrementNameRe. intros H.
  apply Matches_Cat_inv in H as (m1 & r1 & -> & H1 & H).
  apply Matches_Cat_inv in H as (m2 & r2 & -> & H2 & H).
  apply Matches_Cat_inv in H as (m3 & r3 & -> & H3 & H).
  apply Matches_Cat_inv in H as (m4 & r4 & -> & H4 & H).
  apply Matches_Cat_inv in H as (m5 & r5 & -> & _ & H5).
  apply Matches_Char_inv in H1 as (c1 & -> & _).
  apply Matches_Char_inv in H2 as (c2 & -> & _).
  apply Matches_Char_inv in H3 as (c3 & -> & _).
  apply Matches_Char_inv in H4 as (c4 & -> & _).
  apply Matches_Plus_inv in H5 as [_ N].
  rewrite !length_append. destruct r5; [congruence|]. simpl. lia.
Qed.

Lemma match_at_incrementNameRe_min (u : string) (n : nat) :
  match_at incrementNameRe u = Some n -> 5 <= n.
Proof.
  intros H. pose proof (match_at_le _ _ _ H) as L.
  apply match_at_sound, Matches_incrementNameRe_length in H.
  now rewrite length_substring_0 in H.
Qed.

(** A test that succeeds leaves the matcher five code units or more
    beyond where it started, and inside the string. *)
Lemma RegExp_test_incrementNameRe (li : nat) (s : string) :
  fst (RegExp_test incrementNameRe li s) = true ->
  li + 5 <= snd (RegExp_test incrementNameRe li s) <= String.length s.
Proof.
  unfold RegExp_test, RegExp_exec.
  destruct (String.length s <? li) eqn:L; [discriminate|].
  apply Nat.ltb_ge in L.
  destruct (find_from incrementNameRe (drop li s) li) as [[i n]|] eqn:F;
    [|discriminate].
  intros _. cbn [snd].
  pose proof (find_from_bounds _ _ _ _ _ F) as [B1 B2].
  rewrite length_drop in B2.
  apply find_from_sound in F as [_ F].
  apply match_at_incrementNameRe_min in F. lia.
Qed.

Lemma RegExp_test_too_short (li : nat) (s : string) :
  String.length s < li + 5 ->
  RegExp_test incrementNameRe li s = (false, 0).
Proof.
  intros H.
  destruct (fst (RegExp_test incrementNameRe li s)) eqn:T.
  - apply RegExp_test_incrementNameRe in T. lia.
  - pose proof (RegExp_test_false _ _ _ T) as Z.
    destruct (RegExp_test incrementNameRe li s). simpl in *. now subst.
Qed.

(** X15. Right after a row that was yielded, a row whose increment
    name has fewer than ten code units is never yielded, whatever the
    name is: the test starts where the match in the row before ended,
    five code units or more into the string, and fails; the row is
    reported as having an invalid increment name and the matcher is
    back at 0 for the row after it. *)
Theorem short_name_after_yield
        (i : nat) (row1 row2 : HTMLTableRowElement) (li li1 : nat)
        (s1 : Scale) (b n p r : string) (more : list string) :
  row_body (S i) row1 li = ([Yield s1], li1) ->
  cells_of row2 = b :: n :: p :: r :: more ->
  String.length n < 10 ->
  row_body (S (S i)) row2 li1
  = ([StderrWrite (invalid_name_message (S (S i)) n)], 0).
Proof.
  intros Y C L.
  assert (5 <= li1).
  { rewrite row_body_cases in Y.
    destruct (cells_of row1) as [|b1 [|n1 [|p1 [|r1 rest1]]]];
      try (inversion Y; fail).
    destruct (fst (RegExp_test incrementNameRe li n1)) eqn:T;
      inversion Y; subst.
    apply RegExp_test_incrementNameRe in T. lia. }
  rewrite row_body_cases, C.
  rewrite (RegExp_test_too_short li1 n) by lia. reflexivity.
Qed.

Lemma short_name_after_yield_witness :
  let row1 := [cell "16"; cell "Base-1"; cell "16px"; cell "1rem"] in
  let row2 := [cell "18"; cell "Base-2"; cell "18px"; cell "1.125rem"] in
  row_body 1 row1 0 = ([Yield (mkScale "16" "Base-1" "16px" "1rem")], 6)
  /\ cells_of row2 = ["18"; "Base-2"; "18px"; "1.125rem"]
  /\ String.length "Base-2" < 10
  /\ row_body 2 row2 6 = ([StderrWrite (invalid_name_message 2 "Base-2")], 0).
Proof.
  cbv zeta. split; [reflexivity|]. split; [reflexivity|].
  split; [simpl; lia|].
  apply (short_name_after_yield 0
           [cell "16"; cell "Base-1"; cell "16px"; cell "1rem"]
           [cell "18"; cell "Base-2"; cell "18px"; cell "1.125rem"]
           0 6 (mkScale "16" "Base-1" "16px" "1rem")
           "18" "Base-2" "18px" "1.125rem" []).
  - reflexivity.
  - reflexivity.
  - simpl. lia.
Defined.


(** Without values the constructor always throws. *)
Lemma new_ColorInfo_fails_without_values (n : option string) (st : Regs) :
  exists message,
    fst (new_ColorInfo n [] st) = Throw (InvalidColorParametersError message).
Proof.
  rewrite new_ColorInfo_eq.
  destruct n as [[|a nm]|]; eexists; reflexivity.
Qed.

(** ** Rendering and parsing back *)

Lemma hex_uint_acc (d : Hexadecimal.uint) : forall acc,
  all_units lower_hexdigit (HexadecimalString.NilEmpty.string_of_uint d) = true
  /\ all_hex (HexadecimalString.NilEmpty.string_of_uint d) = true
  /\ hex_value_from (Z.pos acc) (HexadecimalString.NilEmpty.string_of_uint d)
     = Z.pos (Pos.of_hex_uint_acc d acc).
Proof.
  induction d; intros acc;
    cbn [HexadecimalString.NilEmpty.string_of_uint Pos.of_hex_uint_acc
           hex_value_from all_hex all_units];
    try (repeat split; reflexivity);
    match goal with
    | |- context [Pos.of_hex_uint_acc d ?a] =>
        destruct (IHd a) as (L & A & B); rewrite <- B
    end;
    (split; [rewrite L; reflexivity|]);
    (split; [rewrite A; reflexivity|]);
    f_equal; vm_compute JS.digit_value; lia.
Qed.

Lemma hex_uint (d : Hexadecimal.uint) :
  all_units lower_hexdigit (HexadecimalString.NilEmpty.string_of_uint d) = true
  /\ all_hex (HexadecimalString.NilEmpty.string_of_uint d) = true
  /\ hex_value (HexadecimalString.NilEmpty.string_of_uint d)
     = Z.of_N (Pos.of_hex_uint d).
Proof.
  unfold hex_value.
  induction d;
    cbn [HexadecimalString.NilEmpty.string_of_uint Pos.of_hex_uint
           hex_value_from all_hex all_units];
    try (repeat split; reflexivity);
    try (destruct IHd as (L & A & B);
         split; [rewrite L; reflexivity|];
         split; [rewrite A; reflexivity | exact B]);
    match goal with
    | |- context [Pos.of_hex_uint_acc d ?a] =>
        destruct (hex_uint_acc d a) as (L & A & B)
    end;
    (split; [rewrite L; reflexivity|]);
    (split; [rewrite A; reflexivity|]);
    cbn [Z.of_N]; rewrite <- B; reflexivity.
Qed.

(** The digits that [toString(16)] writes for an integer of 0 or more
    are lower case and parse back to it. *)
Lemma parseInt_toString16 (z : Z) :
  (0 <= z)%Z ->
  exists c s,
    JS.toString16 (JS.Int z) = String c s
    /\ all_units lower_hexdigit (String c s) = true
    /\ JS.parseInt (String c s) (Some 16) = JS.Int z.
Proof.
  intros H. unfold JS.toString16, Z.to_hex_int.
  destruct z as [|p|p]; [| |lia].
  - exists "0"%char, EmptyString. repeat split.
  - cbn [HexadecimalString.NilZero.string_of_int].
    pose proof (HexadecimalPos.Unsigned.to_uint_nonnil p) as N.
    pose proof (HexadecimalPos.Unsigned.of_to p) as E.
    destruct (hex_uint (Pos.to_hex_uint p)) as (L & A & B).
    rewrite E in B. cbn [Z.of_N] in B.
    assert (S : HexadecimalString.NilZero.string_of_uint (Pos.to_hex_uint p)
                = HexadecimalString.NilEmpty.string_of_uint
                    (Pos.to_hex_uint p)).
    { destruct (Pos.to_hex_uint p); [congruence | reflexivity ..]. }
    rewrite S.
    destruct (HexadecimalString.NilEmpty.string_of_uint (Pos.to_hex_uint p))
      as [|c s] eqn:T.
    + destruct (Pos.to_hex_uint p); try congruence; discriminate.
    + exists c, s. repeat split; auto.
      rewrite parseInt_all_hex by assumption. now rewrite B.
Qed.

(** X16. The hex rendering of a constructed record is the CSS variable
    name, a colon, then [#] and one or more lower-case hexadecimal
    digits that parse back, in base 16, to the stored number; the
    absent format gives the same text. *)
Theorem hex_rendering_parses_back
        (n : option string) (values : list (option string)) (st : Regs)
        (c : ColorInfo) (h : JS.Number) :
  fst (new_ColorInfo n values st) = Normal c ->
  hex c = Some h ->
  exists text,
    toString c (Some "hex")
    = ([], Normal (cssName c ++ ": #" ++ text ++ ";"))
    /\ toString c None = toString c (Some "hex")
    /\ text <> EmptyString
    /\ all_units lower_hexdigit text = true
    /\ JS.parseInt text (Some 16) = h.
Proof.
  intros H R. pose proof R as R0.
  destruct (new_ColorInfo_Normal _ _ _ _ H) as (nm & _ & _ & E & _).
  destruct (for_of_fields (blank nm) values st) as (_ & _ & _ & F & _).
  cbv zeta in F. rewrite <- E in F. rewrite F in R. clear F.
  destruct (last_of Hexadecimal values) as [s|] eqn:L; [|discriminate].
  apply last_of_classify, classify_matches, hex_of_match in L.
  destruct L as (z & Z & [Z0 _]).
  assert (h = JS.Int z) as -> by congruence. clear Z R.
  destruct (parseInt_toString16 z Z0) as (x & t & T & A & P).
  exists (String x t).
  split; [|split; [|split; [discriminate | split; assumption]]].
  - rewrite toString_cases. cbv zeta. rewrite R0, T.
    destruct (rgb c); reflexivity.
  - rewrite !toString_cases. cbv zeta. reflexivity.
Qed.

Lemma hex_rendering_parses_back_witness :
  let c := mkColorInfo "Green" None None (Some (JS.Int 65280)) None in
  fst (new_ColorInfo (Some "Green") [Some "00FF00"] (mkRegs 0 0 0 0))
  = Normal c
  /\ exists text,
      toString c (Some "hex")
      = ([], Normal (cssName c ++ ": #" ++ text ++ ";"))
      /\ toString c None = toString c (Some "hex")
      /\ text <> EmptyString
      /\ all_units lower_hexdigit text = true
      /\ JS.parseInt text (Some 16) = JS.Int 65280.
Proof.
  cbv zeta. split; [vm_compute; reflexivity|].
  apply (hex_rendering_parses_back (Some "Green") [Some "00FF00"]
           (mkRegs 0 0 0 0)).
  - vm_compute. reflexivity.
  - reflexivity.
Defined.

(** X17. A column position at which one or two cells are selected
    never gives a record: entry 1 is dropped, the constructor gets a
    name at most and no value, and throws its error. *)
Theorem short_column_throws
        (table : HTMLTableElement) (i : nat) (st : Regs) :
  1 <= List.length (querySelectorAll_td_nth_child table i) <= 2 ->
  exists message,
    fst (getColorInfoColumn table i st)
    = Throw (InvalidColorParametersError message).
Proof.
  intros H. rewrite getColorInfoColumn_cases.
  destruct (querySelectorAll_td_nth_child table i) as [|c1 [|c2 [|c3 rest]]];
    simpl in H; try lia; cbv zeta; cbn [tl texts flat_map].
  - destruct (textContent c1) as [t|]; cbn [app map hd_error tl].
    + destruct (new_ColorInfo_fails_without_values (Some (JS.trimEnd t)) st)
        as [m E].
      destruct (new_ColorInfo _ _ st) as [r st'].
      simpl in *. subst. eauto.
    + destruct (new_ColorInfo_fails_without_values None st) as [m E].
      destruct (new_ColorInfo _ _ st) as [r st'].
      simpl in *. subst. eauto.
  - destruct (textContent c1) as [t|]; cbn [app map hd_error tl].
    + destruct (new_ColorInfo_fails_without_values (Some (JS.trimEnd t)) st)
        as [m E].
      destruct (new_ColorInfo _ _ st) as [r st'].
      simpl in *. subst. eauto.
    + destruct (new_ColorInfo_fails_without_values None st) as [m E].
      destruct (new_ColorInfo _ _ st) as [r st'].
      simpl in *. subst. eauto.
Qed.

Lemma short_column_throws_witness :
  let table := [[cell "Red"]; [cell "FF0000"]] in
  1 <= List.length (querySelectorAll_td_nth_child table 1) <= 2
  /\ exists message,
      fst (getColorInfoColumn table 1 (mkRegs 0 0 0 0))
      = Throw (InvalidColorParametersError message).
Proof.
  cbv zeta.
  assert (B : 1 <= List.length
                     (querySelectorAll_td_nth_child
                        [[cell "Red"]; [cell "FF0000"]] 1) <= 2)
    by (simpl; lia).
  split; [exact B|].
  exact (short_column_throws _ 1 (mkRegs 0 0 0 0) B).
Defined.

(** ** Pantone text *)

Lemma find_from_here (r : regex) (s : string) (n pos : nat) :
  match_at r s = Some n -> find_from r s pos = Some (pos, n).
Proof.
  intros H. destruct s; cbn [find_from]; now rewrite H.
Qed.

Lemma match_at_pantone_text (a ws b : string) :
  digits a = true -> spaces ws = true -> digits b = true ->
  match_at pmsRe (pantone_text a ws b)
  = Some (String.length (pantone_text a ws b)).
Proof.
  intros Ha Hws Hb. unfold match_at.
  assert (E : match_k pmsRe (pantone_text a ws b) (fun rest => Some rest)
              = Some EmptyString).
  { unfold pmsRe, pantone_text. cbn [match_k].
    destruct ws as [|w ws']; [discriminate|].
    destruct b as [|d b']; [discriminate|].
    unfold spaces in Hws. unfold digits in Hb.
    pose proof Hws as Hw. simpl in Hw. apply andb_prop in Hw as [Hw _].
    pose proof Hb as Hd. simpl in Hd. apply andb_prop in Hd as [Hd _].
    apply match_k_Plus_greedy;
      [cbn [append]; apply not_digit; now right | | now apply digits_all
      | now apply digits_nonempty].
    apply match_k_Plus_greedy;
      [cbn [append]; now destruct (digit_facts d Hd) as [-> _]
      | | assumption | discriminate].
    apply match_k_Plus_greedy;
      [reflexivity | reflexivity | assumption | discriminate]. }
  rewrite E. simpl String.length. now rewrite Nat.sub_0_r.
Qed.

(** X18. A value made of digits, white space, digits and a per cent
    sign is taken for a Pantone code before any other pattern is tried,
    also when it holds six digits in a row, and [pms] becomes the value
    as it is written. *)
Theorem pantone_text_kept
        (a ws b : string) (this : ColorInfo) (st : Regs) :
  digits a = true -> spaces ws = true -> digits b = true ->
  classify (pantone_text a ws b) = Some Pantone
  /\ visit this (Some (pantone_text a ws b)) st
     = (set_pms this (pantone_text a ws b), tested 1 st).
Proof.
  intros Ha Hws Hb.
  set (s := pantone_text a ws b).
  pose proof (match_at_pantone_text a ws b Ha Hws Hb) as M. fold s in M.
  assert (F : fst (RegExp_exec pmsRe 0 s) = Some (0, String.length s)).
  { unfold RegExp_exec. simpl (_ <? 0). rewrite drop_0.
    now rewrite (find_from_here pmsRe s _ 0 M). }
  assert (P : matches pmsRe s = true) by (unfold matches; now rewrite F).
  assert (C : classify s = Some Pantone) by (unfold classify; now rewrite P).
  split; [exact C|].
  rewrite visit_classify, C. cbn [populate tests_run].
  unfold first_match. rewrite F. now rewrite substring_full.
Qed.

Lemma pantone_text_kept_witness :
  digits "123456" = true /\ spaces "  " = true /\ digits "50" = true
  /\ visit (blank "Gold") (Some "123456  50%") (mkRegs 0 3 1 4)
     = (set_pms (blank "Gold") "123456  50%", mkRegs 0 3 1 4).
Proof.
  repeat (split; [reflexivity|]).
  destruct (pantone_text_kept "123456" "  " "50" (blank "Gold")
              (mkRegs 0 3 1 4) eq_refl eq_refl eq_refl) as [_ H].
  exact H.
Defined.
